(** * electron-shortcuts: the shortcut registry and its key-event matcher

  A shallow embedding of [src/main.ts] and [src/cache.ts].

  - JavaScript strings are [string]; [toLowerCase] is modelled on the ASCII
    range, which is where Electron's key codes and modifier names live.
  - The three [Record<string, _>] stores of [cache.ts] are [gmap string _].
    Accelerators are key-code strings, never names of members of
    [Object.prototype], so a lookup sees own properties only.
  - A [WebContents] is identified by its [id], a non-negative integer that
    Electron assigns uniquely; the template literal of [cache.ts] renders it
    in decimal.
  - JavaScript closures are records carrying the values they close over and
    a reference number that stands for the identity of the function object
    ([removeListener] compares listeners with [===]).
  - Mutation and exceptions are an explicit state-and-exception monad: a
    [throw] leaves the mutations made before it in place. *)

From Stdlib Require Import Ascii String NArith.
From stdpp Require Import base option list strings pretty gmap.

Set Default Proof Using "Type".
Local Open Scope string_scope.
Local Open Scope list_scope.

(** ** JavaScript string primitives *)

Module JsString.

Definition lower_ascii (c : ascii) : ascii :=
  let n := N_of_ascii c in
  if ((65 <=? n)%N && (n <=? 90)%N)%bool then ascii_of_N (n + 32) else c.

(** [String.prototype.toLowerCase], on ASCII letters. *)
Fixpoint toLowerCase (s : string) : string :=
  match s with
  | EmptyString => EmptyString
  | String c s' => String (lower_ascii c) (toLowerCase s')
  end.

(** [String.prototype.split] with a one-character separator: the empty
    string yields one empty token, and a trailing separator yields a
    trailing empty token. *)
Fixpoint splitOn (sep : ascii) (s : string) : list string :=
  match s with
  | EmptyString => [EmptyString]
  | String c s' =>
      if decide (c = sep) then EmptyString :: splitOn sep s'
      else match splitOn sep s' with
           | t :: ts => String c t :: ts
           | [] => [String c EmptyString]
           end
  end.

End JsString.

Import JsString.

(** ** Exceptions and completions *)

Inductive Exception :=
| MalformedAccelerator
| TypeError.

Inductive Completion (A : Type) :=
| Normal (a : A)
| Throw (e : Exception).
Arguments Normal {A} a.
Arguments Throw {A} e.

Global Instance Exception_eq_dec : EqDecision Exception.
Proof. solve_decision. Defined.

(** ** The accelerator parser ([utils.ts]) *)

Module Utils.

(** Modelled from the spec: [keys.ts] is not among the sources. The
    canonical modifiers of section 4.1. *)
Inductive Modifier :=
  | CommandOrControl
  | Control
  | Command
  | Alt
  | Shift
  | Super.

Global Instance Modifier_eq_dec : EqDecision Modifier.
Proof. solve_decision. Defined.

(** Modelled from the spec: [utils.ts] is not among the sources. The closed
    alias table of section 6, looked up case-insensitively:
    CommandOrControl/CmdOrCtrl, Control/Ctrl, Command/Cmd, Alt/Option/AltGr,
    Shift, Super/Meta. *)
Definition modifierOfAlias (token : string) : option Modifier :=
  let t := toLowerCase token in
  if decide (t = "commandorcontrol") then Some CommandOrControl
  else if decide (t = "cmdorctrl") then Some CommandOrControl
  else if decide (t = "control") then Some Control
  else if decide (t = "ctrl") then Some Control
  else if decide (t = "command") then Some Command
  else if decide (t = "cmd") then Some Command
  else if decide (t = "alt") then Some Alt
  else if decide (t = "option") then Some Alt
  else if decide (t = "altgr") then Some Alt
  else if decide (t = "shift") then Some Shift
  else if decide (t = "super") then Some Super
  else if decide (t = "meta") then Some Super
  else None.

Definition isModifier (token : string) : bool :=
  bool_decide (is_Some (modifierOfAlias token)).

(** Modelled from the spec: [split] of [utils.ts] is not among the sources.
    Section 4.1: split on the delimiter "+"; a token that is no modifier
    alias is the key; fail with MalformedAccelerator when there is no key
    token, more than one, or an empty token. The source destructures the
    result as [[modifiers, [nonModifier]]]; the model returns the modifier
    tokens and the single key token. *)
Definition split (accelerator : string) : Completion (list string * string) :=
  let tokens := splitOn "+" accelerator in
  if bool_decide (EmptyString ∈ tokens) then Throw MalformedAccelerator
  else
    match filter (λ t, ¬ isModifier t) tokens with
    | [nonModifier] => Normal (filter (λ t, isModifier t) tokens, nonModifier)
    | _ => Throw MalformedAccelerator
    end.

(** Modelled from the spec: [normalizeModifiers] of [utils.ts] is not among
    the sources. Section 4.1: each token goes through the alias table,
    duplicates collapse, an unrecognized token is a MalformedAccelerator. *)
Fixpoint normalizeModifiers (tokens : list string) : Completion (list Modifier) :=
  match tokens with
  | [] => Normal []
  | t :: ts =>
      match modifierOfAlias t, normalizeModifiers ts with
      | Some m, Normal ms => Normal (if decide (m ∈ ms) then ms else m :: ms)
      | None, _ => Throw MalformedAccelerator
      | _, Throw e => Throw e
      end
  end.

(** Modelled from the spec: [normalizeNonModifier] of [utils.ts] is not
    among the sources. Section 4.1: lower-cases the key, no alias table. *)
Definition normalizeNonModifier (token : string) : string := toLowerCase token.

End Utils.

Import Utils.


(** ** Data of the registry *)

(** A callback [f : () => void] is an opaque function object: the model keeps
    its identity and records each call. *)
Abbreviation Callback := nat (only parsing).

(** [webContents.id]. *)
Abbreviation WebContents := N (only parsing).

(** [RegisterOptions] of [keys.ts]: [{ strict?: boolean }]. *)
Record RegisterOptions := { opt_strict : option bool }.

(** [Input.type] of a before-input-event. *)
Inductive InputType :=
  | keyUp
  | keyDown.

Global Instance InputType_eq_dec : EqDecision InputType.
Proof. solve_decision. Defined.

(** Calls made to Electron's [globalShortcut] module, oldest first. *)
Inductive OsCall :=
  | OsRegister (accelerator : string) (f : Callback)
  | OsUnregister (accelerator : string).

(** [Array.prototype] and [EventEmitter] helpers. *)
Fixpoint removeFirst {A} (P : A → bool) (l : list A) : list A :=
  match l with
  | [] => []
  | x :: l' => if P x then l' else x :: removeFirst P l'
  end.

(** [EventEmitter.removeListener] scans from the most recently added
    listener and removes one occurrence. *)
Definition removeLast {A} (P : A → bool) (l : list A) : list A :=
  reverse (removeFirst P (reverse l)).

Section Registry.

(** [input.ts] and the flag table of [utils.ts] are not among the sources:
    the names of the modifier flags of an [Input], the list
    [inputProperties] of them and the map from a canonical modifier to its
    flag are parameters of the model. *)
Context {InputProperty : Type} `{!EqDecision InputProperty}.
Variable inputProperties : list InputProperty.
Variable normalizedModifierToInputProperty : Modifier → InputProperty.

(** Electron's [Input]: [i[mod]] is [input_flag i mod]. *)
Record Input := {
  input_type : InputType;
  input_key : string;
  input_flag : InputProperty → bool;
}.

(** The closure [handler] that [register] builds: it closes over
    [inputModifiers], [normalizedNonModifier], [strict] and [f]. *)
Record Handler := {
  h_ref : nat;
  h_inputModifiers : list InputProperty;
  h_normalizedNonModifier : string;
  h_strict : bool;
  h_f : Callback;
}.

(** The closure [handler] that [registerOnAll] builds: it closes over
    [accelerator], [f] and [options]. *)
Record CreationHandler := {
  ch_ref : nat;
  ch_accelerator : string;
  ch_f : Callback;
  ch_options : option RegisterOptions;
}.

(** The module-level stores of [cache.ts], and the collaborators' state:
    the before-input-event listeners of every [webContents] (in the order
    they were added), the browser-window-created listeners of [app], the
    open windows, and the bindings held by [globalShortcut]. *)
Record State := {
  localShortcutMap : gmap string (Handler * WebContents);
  allShortcutMap : gmap string CreationHandler;
  globalShortcutMap : gmap string Callback;
  inputListeners : list (WebContents * Handler);
  windowCreatedListeners : list CreationHandler;
  allWindows : list WebContents;
  globalShortcuts : gmap string Callback;
  globalShortcutCalls : list OsCall;
  nextRef : nat;
  called : list Callback;
}.

Definition initialState : State := {|
  localShortcutMap := ∅;
  allShortcutMap := ∅;
  globalShortcutMap := ∅;
  inputListeners := [];
  windowCreatedListeners := [];
  allWindows := [];
  globalShortcuts := ∅;
  globalShortcutCalls := [];
  nextRef := 0;
  called := [];
|}.

Definition set_localShortcutMap (g : gmap string (Handler * WebContents) → gmap string (Handler * WebContents)) (st : State) : State := {|
  localShortcutMap := g (localShortcutMap st);
  allShortcutMap := allShortcutMap st;
  globalShortcutMap := globalShortcutMap st;
  inputListeners := inputListeners st;
  windowCreatedListeners := windowCreatedListeners st;
  allWindows := allWindows st;
  globalShortcuts := globalShortcuts st;
  globalShortcutCalls := globalShortcutCalls st;
  nextRef := nextRef st;
  called := called st;
|}.

Definition set_allShortcutMap (g : gmap string CreationHandler → gmap string CreationHandler) (st : State) : State := {|
  localShortcutMap := localShortcutMap st;
  allShortcutMap := g (allShortcutMap st);
  globalShortcutMap := globalShortcutMap st;
  inputListeners := inputListeners st;
  windowCreatedListeners := windowCreatedListeners st;
  allWindows := allWindows st;
  globalShortcuts := globalShortcuts st;
  globalShortcutCalls := globalShortcutCalls st;
  nextRef := nextRef st;
  called := called st;
|}.

Definition set_globalShortcutMap (g : gmap string Callback → gmap string Callback) (st : State) : State := {|
  localShortcutMap := localShortcutMap st;
  allShortcutMap := allShortcutMap st;
  globalShortcutMap := g (globalShortcutMap st);
  inputListeners := inputListeners st;
  windowCreatedListeners := windowCreatedListeners st;
  allWindows := allWindows st;
  globalShortcuts := globalShortcuts st;
  globalShortcutCalls := globalShortcutCalls st;
  nextRef := nextRef st;
  called := called st;
|}.

Definition set_inputListeners (g : list (WebContents * Handler) → list (WebContents * Handler)) (st : State) : State := {|
  localShortcutMap := localShortcutMap st;
  allShortcutMap := allShortcutMap st;
  globalShortcutMap := globalShortcutMap st;
  inputListeners := g (inputListeners st);
  windowCreatedListeners := windowCreatedListeners st;
  allWindows := allWindows st;
  globalShortcuts := globalShortcuts st;
  globalShortcutCalls := globalShortcutCalls st;
  nextRef := nextRef st;
  called := called st;
|}.

Definition set_windowCreatedListeners (g : list CreationHandler → list CreationHandler) (st : State) : State := {|
  localShortcutMap := localShortcutMap st;
  allShortcutMap := allShortcutMap st;
  globalShortcutMap := globalShortcutMap st;
  inputListeners := inputListeners st;
  windowCreatedListeners := g (windowCreatedListeners st);
  allWindows := allWindows st;
  globalShortcuts := globalShortcuts st;
  globalShortcutCalls := globalShortcutCalls st;
  nextRef := nextRef st;
  called := called st;
|}.

Definition set_allWindows (g : list WebContents → list WebContents) (st : State) : State := {|
  localShortcutMap := localShortcutMap st;
  allShortcutMap := allShortcutMap st;
  globalShortcutMap := globalShortcutMap st;
  inputListeners := inputListeners st;
  windowCreatedListeners := windowCreatedListeners st;
  allWindows := g (allWindows st);
  globalShortcuts := globalShortcuts st;
  globalShortcutCalls := globalShortcutCalls st;
  nextRef := nextRef st;
  called := called st;
|}.

(** One call of Electron's [globalShortcut]: the call is logged and the
    bindings change. *)
Definition set_globalShortcuts (c : OsCall) (g : gmap string Callback → gmap string Callback) (st : State) : State := {|
  localShortcutMap := localShortcutMap st;
  allShortcutMap := allShortcutMap st;
  globalShortcutMap := globalShortcutMap st;
  inputListeners := inputListeners st;
  windowCreatedListeners := windowCreatedListeners st;
  allWindows := allWindows st;
  globalShortcuts := g (globalShortcuts st);
  globalShortcutCalls := globalShortcutCalls st ++ [c];
  nextRef := nextRef st;
  called := called st;
|}.

Definition set_nextRef (g : nat → nat) (st : State) : State := {|
  localShortcutMap := localShortcutMap st;
  allShortcutMap := allShortcutMap st;
  globalShortcutMap := globalShortcutMap st;
  inputListeners := inputListeners st;
  windowCreatedListeners := windowCreatedListeners st;
  allWindows := allWindows st;
  globalShortcuts := globalShortcuts st;
  globalShortcutCalls := globalShortcutCalls st;
  nextRef := g (nextRef st);
  called := called st;
|}.

Definition set_called (g : list Callback → list Callback) (st : State) : State := {|
  localShortcutMap := localShortcutMap st;
  allShortcutMap := allShortcutMap st;
  globalShortcutMap := globalShortcutMap st;
  inputListeners := inputListeners st;
  windowCreatedListeners := windowCreatedListeners st;
  allWindows := allWindows st;
  globalShortcuts := globalShortcuts st;
  globalShortcutCalls := globalShortcutCalls st;
  nextRef := nextRef st;
  called := g (called st);
|}.

(** ** The monad of the program: state and exceptions *)

Definition M (A : Type) : Type := State → Completion A * State.

Global Instance M_ret : MRet M := λ A a st, (Normal a, st).

Global Instance M_bind : MBind M := λ A B k m st,
  match m st with
  | (Normal a, st') => k a st'
  | (Throw e, st') => (Throw e, st')
  end.

Definition throw {A} (e : Exception) : M A := λ st, (Throw e, st).
Definition liftC {A} (c : Completion A) : M A := λ st, (c, st).
Definition gets {A} (g : State → A) : M A := λ st, (Normal (g st), st).
Definition modify (g : State → State) : M unit := λ st, (Normal tt, g st).

(** [constVoid] of [utils.ts]: does nothing. *)
Definition constVoid : M unit := mret tt.

(** [Array.prototype.forEach]: an exception ends the loop. *)
Fixpoint forEach {A} (l : list A) (body : A → M unit) : M unit :=
  match l with
  | [] => mret tt
  | x :: l' => body x ;; forEach l' body
  end.

(** Calling the callback [f]. *)
Definition call (f : Callback) : M unit := modify (set_called (λ l, l ++ [f])).

(** A fresh function object. *)
Definition freshRef : M nat :=
  r ← gets nextRef; modify (set_nextRef S) ;; mret r.

(** ** [cache.ts] *)

(** The template literal [`${accelerator}-${webContents.id}`]. *)
Definition localKey (accelerator : string) (webContents : WebContents) : string :=
  accelerator +:+ "-" +:+ pretty webContents.

Definition getShortcutLocal (accelerator : string) (webContents : WebContents) : M (option (Handler * WebContents)) :=
  gets (λ st, localShortcutMap st !! localKey accelerator webContents).

Definition setShortcutLocal (accelerator : string) (webContents : WebContents) (handler : Handler) : M unit :=
  modify (set_localShortcutMap <[localKey accelerator webContents := (handler, webContents)]>).

Definition deleteShortcutLocal (accelerator : string) (webContents : WebContents) : M unit :=
  modify (set_localShortcutMap (delete (localKey accelerator webContents))).

Definition getShortcutOnAll (accelerator : string) : M (option CreationHandler) :=
  gets (λ st, allShortcutMap st !! accelerator).

Definition setShortcutOnAll (accelerator : string) (handler : CreationHandler) : M unit :=
  modify (set_allShortcutMap <[accelerator := handler]>).

Definition deleteShortcutOnAll (accelerator : string) : M unit :=
  modify (set_allShortcutMap (delete accelerator)).

Definition getShortcutGlobal (accelerator : string) : M (option Callback) :=
  gets (λ st, globalShortcutMap st !! accelerator).

Definition setShortcutGlobal (accelerator : string) (handler : Callback) : M unit :=
  modify (set_globalShortcutMap <[accelerator := handler]>).

Definition deleteShortcutGlobal (accelerator : string) : M unit :=
  modify (set_globalShortcutMap (delete accelerator)).

(** ** The collaborators: Node's [EventEmitter] and Electron's [globalShortcut] *)

(** [!!x]: a stored tuple or function is truthy, [undefined] is not. *)
Definition truthy {A} (x : option A) : bool :=
  match x with Some _ => true | None => false end.

(** Two function values are [===] when they are the same function object. *)
Definition sameHandler (h h' : Handler) : bool := bool_decide (h_ref h = h_ref h').
Definition sameCreationHandler (h h' : CreationHandler) : bool := bool_decide (ch_ref h = ch_ref h').

(** [wc.on('before-input-event', handler)]: the listener is added last. *)
Definition webContentsOn (wc : WebContents) (handler : Handler) : M unit :=
  modify (set_inputListeners (λ l, l ++ [(wc, handler)])).

(** [webContents.removeListener('before-input-event', handler)]: Node's
    [EventEmitter] throws a [TypeError] when the listener is not a function,
    and otherwise removes the most recently added occurrence of it. *)
Definition webContentsRemoveListener (wc : WebContents) (handler : option Handler) : M unit :=
  match handler with
  | None => throw TypeError
  | Some h =>
      modify (set_inputListeners
        (removeLast (λ e, bool_decide (e.1 = wc) && sameHandler e.2 h)))
  end.

(** [app.on('browser-window-created', handler)]. *)
Definition appOn (handler : CreationHandler) : M unit :=
  modify (set_windowCreatedListeners (λ l, l ++ [handler])).

(** [app.removeListener('browser-window-created', handler)]. *)
Definition appRemoveListener (handler : option CreationHandler) : M unit :=
  match handler with
  | None => throw TypeError
  | Some h => modify (set_windowCreatedListeners (removeLast (λ e, sameCreationHandler e h)))
  end.

(** [globalShortcut.register(accelerator, f)]: Electron refuses (returns
    [false]) when the accelerator is already bound, and binds it otherwise. *)
Definition globalShortcutRegister (accelerator : string) (f : Callback) : M unit :=
  modify (set_globalShortcuts (OsRegister accelerator f)
    (λ m, match m !! accelerator with Some _ => m | None => <[accelerator := f]> m end)).

(** [globalShortcut.unregister(accelerator)]. *)
Definition globalShortcutUnregister (accelerator : string) : M unit :=
  modify (set_globalShortcuts (OsUnregister accelerator) (delete accelerator)).

(** The before-input-event listeners of one [webContents], oldest first. *)
Definition listenersOf (wc : WebContents) (st : State) : list Handler :=
  snd <$> filter (λ e, e.1 = wc) (inputListeners st).

(** ** [main.ts] *)

Definition isRegisteredLocal (accelerator : string) (webContents : WebContents) : M bool :=
  e ← getShortcutLocal accelerator webContents; mret (truthy e).

Definition isRegisteredOnAll (accelerator : string) : M bool :=
  e ← getShortcutOnAll accelerator; mret (truthy e).

Definition isRegisteredGlobal (accelerator : string) : M bool :=
  e ← getShortcutGlobal accelerator; mret (truthy e).

(** [!!webContents]: a [WebContents] object is truthy. *)
Definition truthyWebContents (webContents : WebContents) : bool := true.

Definition unregister (accelerator : string) (webContents : WebContents) : M unit :=
  e ← getShortcutLocal accelerator webContents;
  let handler := fst <$> (e : option (Handler * WebContents)) in
  let doUnregister : M unit :=
    webContentsRemoveListener webContents handler ;;
    deleteShortcutLocal accelerator webContents in
  if truthyWebContents webContents then doUnregister else constVoid.

(** The modifiers check to perform when [strict] is not enabled. *)
Definition modifiersCheckNonStrict (inputModifiers : list InputProperty) (i : Input) : bool :=
  forallb (λ mod_, input_flag i mod_) inputModifiers.

(** The modifiers check to perform when [strict] is enabled. *)
Definition modifiersCheckStrict (inputModifiers : list InputProperty) (i : Input) : bool :=
  let excessInputProperties := filter (λ p, p ∉ inputModifiers) inputProperties in
  modifiersCheckNonStrict inputModifiers i &&
  forallb (λ mod_, negb (input_flag i mod_)) excessInputProperties.

Definition modifiersCheck (strict : bool) (inputModifiers : list InputProperty) (i : Input) : bool :=
  if strict then modifiersCheckStrict inputModifiers i
  else modifiersCheckNonStrict inputModifiers i.

Definition onKeyUp : M unit := constVoid.

Definition onKeyDown (h : Handler) (input : Input) : M unit :=
  if bool_decide (toLowerCase (input_key input) = toLowerCase (h_normalizedNonModifier h))
     && modifiersCheck (h_strict h) (h_inputModifiers h) input
  then call (h_f h)
  else constVoid.

(** The body of the closure [handler] of [register]. *)
Definition handler (h : Handler) (i : Input) : M unit :=
  if decide (input_type i = keyUp) then onKeyUp else onKeyDown h i.

(** The closure [unregisterPreviousIfNeeded] of [register], with the
    [accelerator] it closes over as a parameter: a previous shortcut with
    the same accelerator on the same window is overridden. *)
Definition unregisterPreviousIfNeeded (accelerator : string) (wc : WebContents) : M unit :=
  registered ← isRegisteredLocal accelerator wc;
  if (registered : bool) then unregister accelerator wc else constVoid.

Definition register (accelerator : string) (f : Callback) (wc : WebContents) (options : option RegisterOptions) : M unit :=
  let strict := default false (options ≫= opt_strict) in
  '(modifiers, nonModifier) ← liftC (split accelerator);
  normalizedModifiers ← liftC (normalizeModifiers modifiers);
  let inputModifiers := normalizedModifierToInputProperty <$> normalizedModifiers in
  let normalizedNonModifier := normalizeNonModifier nonModifier in
  r ← freshRef;
  let handler := {|
    h_ref := r;
    h_inputModifiers := inputModifiers;
    h_normalizedNonModifier := normalizedNonModifier;
    h_strict := strict;
    h_f := f;
  |} in
  unregisterPreviousIfNeeded accelerator wc ;;
  setShortcutLocal accelerator wc handler ;;
  webContentsOn wc handler.

(** The body of the closure [handler] of [registerOnAll], called with the
    [webContents] of the new window. *)
Definition creationHandler (h : CreationHandler) (wc : WebContents) : M unit :=
  register (ch_accelerator h) (ch_f h) wc (ch_options h).

Definition registerOnAll (accelerator : string) (f : Callback) (options : option RegisterOptions) : M unit :=
  windows ← gets allWindows;
  r ← freshRef;
  let handler := {|
    ch_ref := r;
    ch_accelerator := accelerator;
    ch_f := f;
    ch_options := options;
  |} in
  appOn handler ;;
  setShortcutOnAll accelerator handler ;;
  forEach windows (λ win, register accelerator f win options).

Definition unregisterOnAll (accelerator : string) : M unit :=
  windows ← gets allWindows;
  globalHandler ← getShortcutOnAll accelerator;
  let doUnregister : M unit :=
    appRemoveListener globalHandler ;;
    deleteShortcutOnAll accelerator in
  (if truthy globalHandler then doUnregister else constVoid) ;;
  forEach windows (λ win, unregister accelerator win).

Definition unregisterGlobal (accelerator : string) : M unit :=
  deleteShortcutGlobal accelerator ;;
  globalShortcutUnregister accelerator.

(** The closure [unregisterPreviousIfNeeded] of [registerGlobal]. *)
Definition unregisterPreviousGlobalIfNeeded (accelerator : string) : M unit :=
  registered ← isRegisteredGlobal accelerator;
  if (registered : bool) then unregisterGlobal accelerator else constVoid.

Definition registerGlobal (accelerator : string) (f : Callback) : M unit :=
  unregisterPreviousGlobalIfNeeded accelerator ;;
  setShortcutGlobal accelerator f ;;
  globalShortcutRegister accelerator f.

(** ** Events delivered by the collaborators *)

(** A before-input-event on [wc]: every listener of [wc] runs, oldest
    first. *)
Definition emitBeforeInputEvent (wc : WebContents) (i : Input) : M unit :=
  listeners ← gets (listenersOf wc);
  forEach listeners (λ h, handler h i).

(** A new window opens: it joins the open windows and [app] emits
    browser-window-created. *)
Definition createWindow (wc : WebContents) : M unit :=
  modify (set_allWindows (λ l, l ++ [wc])) ;;
  listeners ← gets windowCreatedListeners;
  forEach listeners (λ h, creationHandler h wc).

(** The user presses a globally bound accelerator: [globalShortcut] calls
    the callback bound to it. *)
Definition pressGlobalShortcut (accelerator : string) : M unit :=
  binding ← gets (λ st, globalShortcuts st !! accelerator);
  match (binding : option Callback) with
  | Some f => call f
  | None => constVoid
  end.

(** [normalized] of the spec: what [register] computes from the raw
    accelerator before it builds its handler. *)
Definition normalize (accelerator : string) : Completion (list Modifier * string) :=
  match split accelerator with
  | Normal (modifiers, nonModifier) =>
      match normalizeModifiers modifiers with
      | Normal ms => Normal (ms, normalizeNonModifier nonModifier)
      | Throw e => Throw e
      end
  | Throw e => Throw e
  end.

(** The callbacks called while [m] runs from [st], in order. *)
Definition calledBy {A} (m : M A) (st : State) : list Callback :=
  drop (length (called st)) (called (m st).2).

End Registry.

(** ** An instance of the parameters

    The modifier flags of Electron's [Input], on a platform where
    CommandOrControl stands for Control. The examples and the evaluations of
    the model at concrete inputs use it. *)

Module Electron.

Inductive InputProperty :=
  | shift
  | control
  | alt
  | meta.

Global Instance InputProperty_eq_dec : EqDecision InputProperty.
Proof. solve_decision. Defined.

Definition inputProperties : list InputProperty := [shift; control; alt; meta].

Definition normalizedModifierToInputProperty (m : Modifier) : InputProperty :=
  match m with
  | CommandOrControl => control
  | Control => control
  | Command => meta
  | Alt => alt
  | Shift => shift
  | Super => meta
  end.

(** A key-down snapshot with the given key and the given flags held. *)
Definition keyDownOf (key : string) (held : list InputProperty) : Input :=
  {| input_type := keyDown; input_key := key;
     input_flag := λ p, bool_decide (p ∈ held) |}.

Definition keyUpOf (key : string) (held : list InputProperty) : Input :=
  {| input_type := keyUp; input_key := key;
     input_flag := λ p, bool_decide (p ∈ held) |}.

End Electron.

(** * Properties *)

Section RegistryFacts.

Context {InputProperty : Type} `{!EqDecision InputProperty}.
Variable inputProperties : list InputProperty.
Variable normalizedModifierToInputProperty : Modifier → InputProperty.

Implicit Types (st : @State InputProperty) (h : @Handler InputProperty).
Implicit Types (accelerator a : string) (wc w : N) (f : nat).

Local Abbreviation register := (register normalizedModifierToInputProperty).

(** Running the monad: unfold the operations of the program, leaving the
    stores' own operations folded. *)
Ltac run :=
  cbv beta iota zeta delta
    [mbind M_bind mret M_ret throw liftC gets modify constVoid call freshRef
     getShortcutLocal setShortcutLocal deleteShortcutLocal
     getShortcutOnAll setShortcutOnAll deleteShortcutOnAll
     getShortcutGlobal setShortcutGlobal deleteShortcutGlobal
     webContentsOn webContentsRemoveListener appOn appRemoveListener
     globalShortcutRegister globalShortcutUnregister
     isRegisteredLocal isRegisteredOnAll isRegisteredGlobal truthyWebContents
     unregister unregisterGlobal registerGlobal onKeyUp
     unregisterPreviousIfNeeded unregisterPreviousGlobalIfNeeded
     set_localShortcutMap set_allShortcutMap set_globalShortcutMap
     set_inputListeners set_windowCreatedListeners set_allWindows
     set_globalShortcuts set_nextRef set_called];
  cbn [localShortcutMap allShortcutMap globalShortcutMap inputListeners
       windowCreatedListeners allWindows globalShortcuts globalShortcutCalls
       nextRef called fst snd fmap option_fmap option_map truthy].

Lemma removeFirst_none {A} (P : A → bool) l :
  Forall (λ x, P x = false) l → removeFirst P l = l.
Proof. induction 1 as [|x l Hx _ IH]; simpl; [done|]. by rewrite Hx, IH. Qed.

Lemma removeLast_snoc {A} (P : A → bool) l x :
  P x = true → removeLast P (l ++ [x]) = l.
Proof.
  intros Hx. unfold removeLast. rewrite reverse_snoc. simpl. rewrite Hx.
  apply reverse_involutive.
Qed.

Lemma removeLast_none {A} (P : A → bool) l :
  Forall (λ x, P x = false) l → removeLast P l = l.
Proof.
  intros Hl. unfold removeLast. rewrite removeFirst_none.
  - apply reverse_involutive.
  - by apply Forall_reverse.
Qed.

(** The handler that [register] builds in state [st]. *)
Lemma unregister_present st a w h0 w0 :
  localShortcutMap st !! localKey a w = Some (h0, w0) →
  unregister a w st =
    (Normal (), set_localShortcutMap (delete (localKey a w))
       (set_inputListeners (removeLast (λ e, bool_decide (e.1 = w) && sameHandler e.2 h0)) st)).
Proof. intros Hk. run. rewrite Hk. reflexivity. Qed.

Lemma unregister_absent st a w :
  localShortcutMap st !! localKey a w = None →
  unregister a w st = (Throw TypeError, st).
Proof. intros Hk. run. rewrite Hk. reflexivity. Qed.


Lemma normalize_Normal a ms k :
  normalize a = Normal (ms, k) →
  ∃ modifiers nonModifier,
    split a = Normal (modifiers, nonModifier) ∧
    normalizeModifiers modifiers = Normal ms ∧
    k = normalizeNonModifier nonModifier.
Proof.
  unfold normalize. destruct (split a) as [[mods k0]|e]; [|done].
  destruct (normalizeModifiers mods) as [ms'|e] eqn:Hms; [|done].
  intros [= <- <-]. by exists mods, k0.
Qed.

Lemma normalize_Throw a e :
  normalize a = Throw e →
  split a = Throw e ∨
  ∃ modifiers nonModifier,
    split a = Normal (modifiers, nonModifier) ∧ normalizeModifiers modifiers = Throw e.
Proof.
  unfold normalize. destruct (split a) as [[mods k0]|e']; [|intros [= ->]; by left].
  destruct (normalizeModifiers mods) as [ms'|e'] eqn:Hms; [done|].
  intros [= ->]. right. by exists mods, k0.
Qed.

Lemma unregisterPreviousIfNeeded_run st a w :
  unregisterPreviousIfNeeded a w st =
    (Normal (),
     match localShortcutMap st !! localKey a w with
     | Some (h0, _) =>
         set_localShortcutMap (delete (localKey a w))
           (set_inputListeners
              (removeLast (λ e, bool_decide (e.1 = w) && sameHandler e.2 h0)) st)
     | None => st
     end).
Proof.
  destruct (localShortcutMap st !! localKey a w) as [[h0 w0]|] eqn:Hk;
    run; rewrite Hk; run; rewrite ?Hk; run; done.
Qed.

Lemma register_run st a f w o ms k :
  normalize a = Normal (ms, k) →
  register a f w o st =
    (Normal (),
     let h := {| h_ref := nextRef st;
                 h_inputModifiers := normalizedModifierToInputProperty <$> ms;
                 h_normalizedNonModifier := k;
                 h_strict := default false (o ≫= opt_strict);
                 h_f := f |} in
     {| localShortcutMap := <[localKey a w := (h, w)]> (localShortcutMap st);
        allShortcutMap := allShortcutMap st;
        globalShortcutMap := globalShortcutMap st;
        inputListeners := inputListeners (unregisterPreviousIfNeeded a w st).2 ++ [(w, h)];
        windowCreatedListeners := windowCreatedListeners st;
        allWindows := allWindows st;
        globalShortcuts := globalShortcuts st;
        globalShortcutCalls := globalShortcutCalls st;
        nextRef := S (nextRef st);
        called := called st |}).
Proof.
  intros (mods & k0 & Hsplit & Hmods & ->)%normalize_Normal.
  unfold register. run. rewrite Hsplit. run. rewrite Hmods. run.
  destruct (localShortcutMap st !! localKey a w) as [[h0 w0]|] eqn:Hk;
    run; rewrite ?Hk; run; rewrite ?Hk; run; [|done].
  by rewrite insert_delete_eq.
Qed.

Lemma register_throw st a f w o e :
  normalize a = Throw e → register a f w o st = (Throw e, st).
Proof.
  intros [Hsplit|(mods & k0 & Hsplit & Hmods)]%normalize_Throw;
    unfold register; run; rewrite Hsplit; run; [done|].
  by rewrite Hmods.
Qed.


(** *** Running listeners *)

Lemma forEach_app {A} (l1 l2 : list A) (body : A → M ()) st :
  forEach (l1 ++ l2) body st = (forEach l1 body ;; forEach l2 body) st.
Proof.
  revert st. induction l1 as [|x l1 IH]; intros st; simpl; [done|].
  run. destruct (body x st) as [[[]|e] st']; [|done]. apply IH.
Qed.

Lemma set_called_nil st : set_called (λ c, c ++ []) st = st.
Proof. destruct st. run. by rewrite app_nil_r. Qed.

Lemma set_called_app K1 K2 st :
  set_called (λ c, c ++ K2) (set_called (λ c, c ++ K1) st) =
  set_called (λ c, c ++ (K1 ++ K2)) st.
Proof. run. by rewrite app_assoc. Qed.

Lemma calledBy_intro {A} (m : M A) st K :
  (m st).2 = set_called (λ c, c ++ K) st → calledBy m st = K.
Proof. unfold calledBy. intros ->. run. by rewrite drop_app_length. Qed.

Lemma handler_run h i st :
  handler inputProperties h i st =
    (Normal (),
     set_called (λ c, c ++
       if decide (input_type i = keyUp) then []
       else if bool_decide (toLowerCase (input_key i) = toLowerCase (h_normalizedNonModifier h))
               && modifiersCheck inputProperties (h_strict h) (h_inputModifiers h) i
            then [h_f h] else []) st).
Proof.
  unfold handler, onKeyDown. destruct (decide _); [by rewrite set_called_nil|].
  destruct (_ && _); [done|]. by rewrite set_called_nil.
Qed.

Lemma forEach_handler_frame (l : list Handler) i :
  ∃ K, ∀ st,
    forEach l (λ h, handler inputProperties h i) st =
      (Normal (), set_called (λ c, c ++ K) st).
Proof.
  induction l as [|h l [K IH]].
  - exists []. intros st. simpl. by rewrite set_called_nil.
  - eexists (_ ++ K). intros st. simpl.
    unfold mbind, M_bind. rewrite handler_run, IH. by rewrite set_called_app.
Qed.

Lemma listenersOf_snoc w h st :
  listenersOf w (set_inputListeners (λ l, l ++ [(w, h)]) st) = listenersOf w st ++ [h].
Proof.
  unfold listenersOf. run. rewrite filter_app, fmap_app.
  rewrite filter_cons_True by done. done.
Qed.


Lemma emit_run w i st :
  ∃ K, (∀ st', listenersOf w st' = listenersOf w st →
          emitBeforeInputEvent inputProperties w i st' =
            (Normal (), set_called (λ c, c ++ K) st')).
Proof.
  destruct (forEach_handler_frame (listenersOf w st) i) as [K HK].
  exists K. intros st' Hst'. unfold emitBeforeInputEvent. run.
  rewrite Hst'. apply HK.
Qed.

Lemma register_twice_run st a cb1 cb2 w o1 o2 ms k :
  normalize a = Normal (ms, k) →
  (register a cb1 w o1 ;; register a cb2 w o2) st =
    (Normal (),
     let h2 := {| h_ref := S (nextRef st);
                  h_inputModifiers := normalizedModifierToInputProperty <$> ms;
                  h_normalizedNonModifier := k;
                  h_strict := default false (o2 ≫= opt_strict);
                  h_f := cb2 |} in
     {| localShortcutMap := <[localKey a w := (h2, w)]> (localShortcutMap st);
        allShortcutMap := allShortcutMap st;
        globalShortcutMap := globalShortcutMap st;
        inputListeners := inputListeners (unregisterPreviousIfNeeded a w st).2 ++ [(w, h2)];
        windowCreatedListeners := windowCreatedListeners st;
        allWindows := allWindows st;
        globalShortcuts := globalShortcuts st;
        globalShortcutCalls := globalShortcutCalls st;
        nextRef := S (S (nextRef st));
        called := called st |}).
Proof.
  intros Ha. unfold mbind at 1. unfold M_bind.
  rewrite (register_run _ _ _ _ _ _ _ Ha).
  rewrite (register_run _ _ _ _ _ _ _ Ha).
  cbn [localShortcutMap allShortcutMap globalShortcutMap inputListeners
       windowCreatedListeners allWindows globalShortcuts globalShortcutCalls
       nextRef called].
  rewrite insert_insert_eq.
  rewrite (unregisterPreviousIfNeeded_run {| nextRef := S (nextRef st) |}).
  cbn [localShortcutMap snd]. rewrite lookup_insert_eq.
  unfold set_localShortcutMap, set_inputListeners. cbn [inputListeners].
  rewrite removeLast_snoc; [done|].
  cbn [fst snd]. unfold sameHandler. cbn [h_ref].
  by rewrite !bool_decide_eq_true_2.
Qed.


Lemma listenersOf_unregisterPrevious_nil st a w :
  listenersOf w st = [] →
  listenersOf w (unregisterPreviousIfNeeded a w st).2 = [].
Proof.
  intros Hnil. rewrite unregisterPreviousIfNeeded_run. cbn [snd].
  destruct (localShortcutMap st !! localKey a w) as [[h0 w0]|]; [|done].
  unfold listenersOf. run. rewrite removeLast_none; [done|].
  apply Forall_forall. intros [w' h'] Hin.
  destruct (decide (w' = w)) as [->|Hne].
  - assert (h' ∈ listenersOf w st) as Hh.
    { unfold listenersOf. apply list_elem_of_fmap. exists (w, h'). split; [done|].
      by apply list_elem_of_filter. }
    rewrite Hnil in Hh. by apply not_elem_of_nil in Hh.
  - cbn [fst]. by rewrite bool_decide_eq_false_2.
Qed.

(** C1. Registering the same accelerator twice on the same window leaves one
    handler for it: the store holds the second handler, the window's
    listeners are those that were there apart from the overridden entry,
    followed by the second handler only, and a matching key-down calls, on
    behalf of the two registrations, the second callback once and the first
    never. *)
Theorem register_twice_single_handler st a cb1 cb2 w o1 o2 ms k :
  normalize a = Normal (ms, k) →
  let base := (unregisterPreviousIfNeeded a w st).2 in
  let run2 := (register a cb1 w o1 ;; register a cb2 w o2) st in
  let h2 := {| h_ref := S (nextRef st);
               h_inputModifiers := normalizedModifierToInputProperty <$> ms;
               h_normalizedNonModifier := k;
               h_strict := default false (o2 ≫= opt_strict);
               h_f := cb2 |} in
  run2.1 = Normal () ∧
  localShortcutMap run2.2 !! localKey a w = Some (h2, w) ∧
  listenersOf w run2.2 = listenersOf w base ++ [h2] ∧
  (∀ i, input_type i = keyDown →
        toLowerCase (input_key i) = toLowerCase k →
        modifiersCheck inputProperties (h_strict h2) (h_inputModifiers h2) i = true →
        calledBy (emitBeforeInputEvent inputProperties w i) run2.2 =
          calledBy (emitBeforeInputEvent inputProperties w i) base ++ [cb2] ∧
        (listenersOf w st = [] →
         calledBy (emitBeforeInputEvent inputProperties w i) run2.2 = [cb2])).
Proof.
  intros Ha base run2 h2.
  assert (run2 = (Normal (),
    set_inputListeners (λ l, l ++ [(w, h2)])
      {| localShortcutMap := <[localKey a w := (h2, w)]> (localShortcutMap st);
         allShortcutMap := allShortcutMap st;
         globalShortcutMap := globalShortcutMap st;
         inputListeners := inputListeners base;
         windowCreatedListeners := windowCreatedListeners st;
         allWindows := allWindows st;
         globalShortcuts := globalShortcuts st;
         globalShortcutCalls := globalShortcutCalls st;
         nextRef := S (S (nextRef st));
         called := called st |})) as ->.
  { unfold run2. by rewrite (register_twice_run _ _ _ _ _ _ _ _ _ Ha). }
  cbn [fst snd].
  split; [done|]. split; [apply lookup_insert_eq|].
  assert (listenersOf w
    (set_inputListeners (λ l, l ++ [(w, h2)])
      {| localShortcutMap := <[localKey a w := (h2, w)]> (localShortcutMap st);
         allShortcutMap := allShortcutMap st;
         globalShortcutMap := globalShortcutMap st;
         inputListeners := inputListeners base;
         windowCreatedListeners := windowCreatedListeners st;
         allWindows := allWindows st;
         globalShortcuts := globalShortcuts st;
         globalShortcutCalls := globalShortcutCalls st;
         nextRef := S (S (nextRef st));
         called := called st |}) = listenersOf w base ++ [h2]) as Hls.
  { by rewrite listenersOf_snoc. }
  split; [exact Hls|].
  intros i Hdown Hkey Hmods.
  destruct (emit_run w i base) as [K HK].
  destruct (forEach_handler_frame (listenersOf w base) i) as [K' HK'].
  assert (K' = K) as ->.
  { specialize (HK base eq_refl). unfold emitBeforeInputEvent in HK.
    revert HK. run. rewrite HK'. intros [= HK].
    apply (f_equal (drop (length (called base)))) in HK.
    by rewrite !drop_app_length in HK. }
  assert (calledBy (emitBeforeInputEvent inputProperties w i) base = K) as HbaseK.
  { apply calledBy_intro. by rewrite HK. }
  match goal with |- calledBy _ ?s = _ ∧ _ =>
    assert (calledBy (emitBeforeInputEvent inputProperties w i) s = K ++ [cb2]) as Hcalled
  end.
  { apply calledBy_intro. unfold emitBeforeInputEvent.
    unfold mbind, M_bind, gets. rewrite Hls.
    rewrite forEach_app. unfold mbind, M_bind. rewrite HK'. simpl forEach.
    unfold mbind, M_bind. rewrite handler_run.
    rewrite decide_False by (rewrite Hdown; done).
    cbn [h_normalizedNonModifier h_strict h_inputModifiers h_f h2].
    cbn [h_strict h_inputModifiers h2] in Hmods.
    rewrite Hmods, bool_decide_eq_true_2 by done.
    cbn [andb mret M_ret snd]. by rewrite set_called_app. }
  split.
  - by rewrite Hcalled, HbaseK.
  - intros Hnil. rewrite Hcalled.
    assert (K = []) as ->; [|done].
    rewrite <- HbaseK. apply calledBy_intro.
    unfold emitBeforeInputEvent, mbind, M_bind, gets, base.
    rewrite (listenersOf_unregisterPrevious_nil _ _ _ Hnil). simpl.
    by rewrite set_called_nil.
Qed.


(** *** The matcher *)

Lemma modifiersCheckNonStrict_spec (inputModifiers : list InputProperty) i :
  modifiersCheckNonStrict inputModifiers i = true ↔
  ∀ p, p ∈ inputModifiers → input_flag i p = true.
Proof.
  unfold modifiersCheckNonStrict. rewrite forallb_forall.
  split; intros H p Hp; apply H; by apply list_elem_of_In.
Qed.

Lemma modifiersCheckStrict_spec (inputModifiers : list InputProperty) i :
  modifiersCheckStrict inputProperties inputModifiers i = true ↔
  (∀ p, p ∈ inputModifiers → input_flag i p = true) ∧
  (∀ p, p ∈ inputProperties → p ∉ inputModifiers → input_flag i p = false).
Proof.
  unfold modifiersCheckStrict.
  rewrite andb_true_iff, modifiersCheckNonStrict_spec, forallb_forall.
  apply and_iff_compat_l. split.
  - intros H p Hp Hnot. apply negb_true_iff, H, list_elem_of_In.
    by apply list_elem_of_filter.
  - intros H p [Hnot Hp]%list_elem_of_In%list_elem_of_filter.
    apply negb_true_iff. by apply H.
Qed.

Lemma calledBy_handler h i st :
  calledBy (handler inputProperties h i) st =
    if decide (input_type i = keyUp) then []
    else if bool_decide (toLowerCase (input_key i) = toLowerCase (h_normalizedNonModifier h))
            && modifiersCheck inputProperties (h_strict h) (h_inputModifiers h) i
         then [h_f h] else [].
Proof. apply calledBy_intro. by rewrite handler_run. Qed.

(** C2. On a key-down whose key equals the normalized key case-insensitively,
    the handler calls the callback, in non-strict mode, iff every modifier of
    the normalized set has its flag set (other flags are ignored) and, in
    strict mode, iff moreover every flag of the table [inputProperties]
    outside the required ones is clear; when the table lists every flag,
    that is: the held flags are exactly the required ones. Otherwise the
    handler calls nothing. *)
Theorem handler_modifier_semantics st r ms k strict f i :
  input_type i = keyDown →
  toLowerCase (input_key i) = toLowerCase k →
  let h := {| h_ref := r;
              h_inputModifiers := normalizedModifierToInputProperty <$> ms;
              h_normalizedNonModifier := k;
              h_strict := strict;
              h_f := f |} in
  let required :=
    ∀ m, m ∈ ms → input_flag i (normalizedModifierToInputProperty m) = true in
  let noExcess :=
    ∀ p, p ∈ inputProperties → p ∉ normalizedModifierToInputProperty <$> ms →
         input_flag i p = false in
  (strict = false →
     (calledBy (handler inputProperties h i) st = [f] ↔ required) ∧
     (calledBy (handler inputProperties h i) st = [] ↔ ¬ required)) ∧
  (strict = true →
     (calledBy (handler inputProperties h i) st = [f] ↔ required ∧ noExcess) ∧
     (calledBy (handler inputProperties h i) st = [] ↔ ¬ (required ∧ noExcess)) ∧
     ((∀ p, p ∈ inputProperties) →
      (calledBy (handler inputProperties h i) st = [f] ↔
       ∀ p, input_flag i p = true ↔ p ∈ normalizedModifierToInputProperty <$> ms))).
Proof.
  intros Hdown Hkey h required noExcess.
  assert (required ↔
          ∀ p, p ∈ normalizedModifierToInputProperty <$> ms → input_flag i p = true)
    as Hreq.
  { unfold required. split.
    - intros H p (m & -> & Hm)%list_elem_of_fmap. by apply H.
    - intros H m Hm. by apply H, list_elem_of_fmap_2. }
  rewrite calledBy_handler.
  rewrite decide_False by (rewrite Hdown; done).
  cbn [h h_normalizedNonModifier h_strict h_inputModifiers h_f].
  rewrite bool_decide_eq_true_2 by done. cbn [andb].
  split; intros ->; cbn [modifiersCheck].
  - rewrite Hreq, <- modifiersCheckNonStrict_spec.
    destruct (modifiersCheckNonStrict _ i); split; split; congruence.
  - assert (required ∧ noExcess ↔
            modifiersCheckStrict inputProperties
              (normalizedModifierToInputProperty <$> ms) i = true) as Hstrict.
    { rewrite modifiersCheckStrict_spec, Hreq. done. }
    split; [|split].
    + rewrite Hstrict. destruct (modifiersCheckStrict _ _ i); split; congruence.
    + rewrite Hstrict. destruct (modifiersCheckStrict _ _ i); split; congruence.
    + intros Hall.
      transitivity (required ∧ noExcess).
      { rewrite Hstrict. destruct (modifiersCheckStrict _ _ i); split; congruence. }
      rewrite Hreq. unfold noExcess. split.
      * intros [H1 H2] p. split; [|by apply H1].
        intros Hp. destruct (decide (p ∈ normalizedModifierToInputProperty <$> ms))
          as [|Hnot]; [done|].
        rewrite (H2 p (Hall p) Hnot) in Hp. done.
      * intros H. split; [intros p Hp; by apply H|].
        intros p _ Hnot. destruct (input_flag i p) eqn:Hflag; [|done].
        by apply H in Hflag.
Qed.

(** C3. A key-up never calls a callback: neither one handler nor the
    delivery of the event to all the listeners of a window changes
    anything, whatever the key and the flags. *)
Theorem key_up_never_calls st h w i :
  input_type i = keyUp →
  handler inputProperties h i st = (Normal (), st) ∧
  emitBeforeInputEvent inputProperties w i st = (Normal (), st) ∧
  calledBy (emitBeforeInputEvent inputProperties w i) st = [].
Proof.
  intros Hup.
  assert (∀ h' st', handler inputProperties h' i st' = (Normal (), st')) as Hh.
  { intros h' st'. unfold handler. by rewrite decide_True. }
  assert (emitBeforeInputEvent inputProperties w i st = (Normal (), st)) as Hemit.
  { unfold emitBeforeInputEvent. run.
    induction (listenersOf w st) as [|h' l IH]; simpl; [done|].
    unfold mbind, M_bind. by rewrite Hh. }
  split; [apply Hh|]. split; [done|].
  apply calledBy_intro. by rewrite Hemit, set_called_nil.
Qed.


(** *** The composite key of the local store *)

Lemma list_ascii_of_string_app s1 s2 :
  list_ascii_of_string (s1 +:+ s2) = list_ascii_of_string s1 ++ list_ascii_of_string s2.
Proof. induction s1 as [|c s1 IH]; simpl; [done|]. by rewrite IH. Qed.

Lemma list_ascii_of_string_inj s1 s2 :
  list_ascii_of_string s1 = list_ascii_of_string s2 → s1 = s2.
Proof.
  intros H. rewrite <- (string_of_list_ascii_of_string s1), H.
  apply string_of_list_ascii_of_string.
Qed.

Lemma split_at_last_separator {A} (x : A) l1 l2 d1 d2 :
  x ∉ d1 → x ∉ d2 → l1 ++ x :: d1 = l2 ++ x :: d2 → l1 = l2 ∧ d1 = d2.
Proof.
  intros Hd1 Hd2. revert l2. induction l1 as [|c l1 IH]; intros [|c' l2]; simpl.
  - by intros [= ->].
  - intros [= <- ->]. exfalso. apply Hd1, elem_of_app. right. apply elem_of_cons. by left.
  - intros [= -> <-]. exfalso. apply Hd2, elem_of_app. right. apply elem_of_cons. by left.
  - intros [= -> H]. by destruct (IH _ H) as [-> ->].
Qed.

Lemma pretty_N_go_no_dash x s :
  "-"%char ∉ list_ascii_of_string s →
  "-"%char ∉ list_ascii_of_string (pretty_N_go x s).
Proof.
  revert s. induction (N.lt_wf_0 x) as [x _ IH]; intros s Hs.
  destruct (decide (x = 0)%N) as [->|Hx]; [by rewrite pretty_N_go_0|].
  rewrite pretty_N_go_step by lia. apply IH.
  - apply N.div_lt; lia.
  - simpl. apply not_elem_of_cons. split; [|done].
    unfold pretty_N_char. by repeat case_match.
Qed.

Lemma pretty_N_no_dash (x : N) : "-"%char ∉ list_ascii_of_string (pretty x).
Proof.
  unfold pretty, pretty_N. case_decide.
  - simpl. by intros ?%list_elem_of_singleton.
  - apply pretty_N_go_no_dash. simpl. apply not_elem_of_nil.
Qed.

Lemma localKey_inj a1 w1 a2 w2 :
  localKey a1 w1 = localKey a2 w2 → a1 = a2 ∧ w1 = w2.
Proof.
  unfold localKey. intros Hkey%(f_equal list_ascii_of_string).
  rewrite !list_ascii_of_string_app in Hkey. simpl in Hkey.
  destruct (split_at_last_separator _ _ _ _ _
              (pretty_N_no_dash w1) (pretty_N_no_dash w2) Hkey) as [Ha Hw].
  split; [by apply list_ascii_of_string_inj|].
  by apply (inj pretty), list_ascii_of_string_inj.
Qed.


Lemma localKey_ne_accelerator a1 a2 w : a1 ≠ a2 → localKey a1 w ≠ localKey a2 w.
Proof. intros Hne [? _]%localKey_inj. done. Qed.

Lemma isRegisteredLocal_run a w st :
  isRegisteredLocal a w st = (Normal (truthy (localShortcutMap st !! localKey a w)), st).
Proof. done. Qed.

(** *** Local registration *)

(** C4. After [register] of a well-formed accelerator the entry is there,
    and after the following [unregister] it is gone; neither call throws. *)
Theorem register_then_unregister st a f w o ms k :
  normalize a = Normal (ms, k) →
  let r1 := register a f w o st in
  let r2 := unregister a w r1.2 in
  r1.1 = Normal () ∧
  isRegisteredLocal a w r1.2 = (Normal true, r1.2) ∧
  r2.1 = Normal () ∧
  isRegisteredLocal a w r2.2 = (Normal false, r2.2).
Proof.
  intros Ha r1 r2. unfold r2, r1. rewrite (register_run _ _ _ _ _ _ _ Ha).
  cbn [fst snd]. rewrite !isRegisteredLocal_run.
  cbn [localShortcutMap]. rewrite lookup_insert_eq. cbn [truthy].
  split; [done|]. split; [done|].
  erewrite unregister_present by (cbn [localShortcutMap]; apply lookup_insert_eq).
  cbn [fst snd]. split; [done|].
  unfold set_localShortcutMap. cbn [localShortcutMap].
  by rewrite lookup_delete_eq.
Qed.

(** C5 fails on the code. With no entry stored for the accelerator and the
    window, [unregister] still runs [doUnregister], because its guard tests
    the window and not the handler: [removeListener] receives [undefined]
    and throws. The stores and the subscriptions are unchanged, but the call
    is not silent. *)
Theorem unregister_without_entry_throws st a w :
  localShortcutMap st !! localKey a w = None →
  unregister a w st = (Throw TypeError, st).
Proof. intros Hk. run. rewrite Hk. reflexivity. Qed.

(** C6, amended. The local store is keyed by the raw accelerator text:
    after [register a1], the entry is found under [a1]; for any other text
    [a2], be it the same shortcut in another case or token order, the answer
    of [isRegisteredLocal] is what it was before the registration, and
    [unregister a2] leaves the entry of [a1] in the store. *)
Theorem registry_keys_are_raw_text st a1 a2 f w o ms k :
  a1 ≠ a2 →
  normalize a1 = Normal (ms, k) →
  let st1 := (register a1 f w o st).2 in
  isRegisteredLocal a1 w st1 = (Normal true, st1) ∧
  (isRegisteredLocal a2 w st1).1 = (isRegisteredLocal a2 w st).1 ∧
  (isRegisteredLocal a1 w (unregister a2 w st1).2).1 = Normal true.
Proof.
  intros Hne Ha st1. unfold st1. rewrite (register_run _ _ _ _ _ _ _ Ha).
  cbn [snd]. rewrite !isRegisteredLocal_run. cbn [fst localShortcutMap].
  pose proof (localKey_ne_accelerator _ _ w Hne) as Hkey.
  rewrite lookup_insert_eq, lookup_insert_ne by done.
  split; [done|]. split; [done|].
  match goal with |- context [unregister a2 w ?s] => set (s1 := s) end.
  destruct (localShortcutMap s1 !! localKey a2 w) as [[h0 w0]|] eqn:Hk2.
  - rewrite (unregister_present _ _ _ _ _ Hk2). unfold s1. run.
    by rewrite lookup_delete_ne, lookup_insert_eq.
  - rewrite (unregister_absent _ _ _ Hk2). cbn [snd]. unfold s1.
    cbn [localShortcutMap]. by rewrite lookup_insert_eq.
Qed.

(** C10, amended. The composite key is injective: the decimal text of a
    window id has no "-", so the last "-" of a key separates the accelerator
    from the id. Distinct pairs have distinct keys, and storing or deleting
    the entry of one pair leaves the entry of every other pair as it was. *)
Theorem local_key_injective a1 w1 a2 w2 h st :
  (a1, w1) ≠ (a2, w2) →
  localKey a1 w1 ≠ localKey a2 w2 ∧
  (getShortcutLocal a2 w2 (setShortcutLocal a1 w1 h st).2).1 = (getShortcutLocal a2 w2 st).1 ∧
  (getShortcutLocal a2 w2 (deleteShortcutLocal a1 w1 st).2).1 = (getShortcutLocal a2 w2 st).1.
Proof.
  intros Hne.
  assert (localKey a1 w1 ≠ localKey a2 w2) as Hkey.
  { intros [-> ->]%localKey_inj. done. }
  split; [done|]. run.
  by rewrite lookup_insert_ne, lookup_delete_ne.
Qed.

(** *** Malformed accelerators *)

Lemma split_throws a e : split a = Throw e → e = MalformedAccelerator.
Proof.
  unfold split. case_bool_decide; [congruence|].
  destruct (filter _ _) as [|? [|??]]; congruence.
Qed.

Lemma normalizeModifiers_throws tokens e :
  normalizeModifiers tokens = Throw e → e = MalformedAccelerator.
Proof.
  induction tokens as [|t ts IH]; simpl; [done|].
  destruct (modifierOfAlias t), (normalizeModifiers ts); try congruence.
  intros [= <-]. by apply IH.
Qed.

Lemma normalize_throws a e : normalize a = Throw e → e = MalformedAccelerator.
Proof.
  intros [H|(? & ? & _ & H)]%normalize_Throw;
    eauto using split_throws, normalizeModifiers_throws.
Qed.

(** C8, amended. [register] parses before it touches anything: on a
    malformed accelerator it throws MalformedAccelerator and the whole state,
    the three stores included, is as it was. *)
Theorem register_malformed_no_mutation st a f w o e :
  normalize a = Throw e →
  register a f w o st = (Throw MalformedAccelerator, st).
Proof.
  intros Ha. rewrite (register_throw _ _ _ _ _ _ Ha).
  by rewrite (normalize_throws _ _ Ha).
Qed.

(** *** Global registration *)

Lemma bind_run {A B} (m : M A) (k : A → M B) st x :
  (m st).1 = Normal x → (m ≫= k) st = k x (m st).2.
Proof. unfold mbind, M_bind. destruct (m st) as [c s]. by intros [= ->]. Qed.

(** C9. Registering a global shortcut twice for one accelerator: before the
    second capture is requested the first binding is gone from the store and
    from [globalShortcut]; afterwards the store and [globalShortcut] hold the
    second callback, the second call has made exactly the calls
    [unregister] then [register], and pressing the shortcut calls the second
    callback once and nothing else. *)
Theorem registerGlobal_twice st a cb1 cb2 :
  let st1 := (registerGlobal a cb1 st).2 in
  let mid := (unregisterPreviousGlobalIfNeeded a st1).2 in
  let st2 := (registerGlobal a cb2 st1).2 in
  (registerGlobal a cb1 ;; registerGlobal a cb2) st = (Normal (), st2) ∧
  (globalShortcutMap mid !! a = None ∧ globalShortcuts mid !! a = None) ∧
  globalShortcutCalls st2 =
    globalShortcutCalls st1 ++ [OsUnregister a; OsRegister a cb2] ∧
  globalShortcutMap st2 !! a = Some cb2 ∧
  globalShortcuts st2 !! a = Some cb2 ∧
  calledBy (pressGlobalShortcut a) st2 = [cb2].
Proof.
  intros st1 mid st2.
  assert (globalShortcutMap st1 !! a = Some cb1) as H1.
  { unfold st1. run. destruct (globalShortcutMap st !! a); run; apply lookup_insert_eq. }
  assert ((registerGlobal a cb1 st).1 = Normal ()) as Hn1.
  { run. by destruct (globalShortcutMap st !! a). }
  assert (registerGlobal a cb2 st1 =
    (Normal (),
     set_globalShortcuts (OsRegister a cb2) <[a := cb2]>
       (set_globalShortcutMap <[a := cb2]>
          (set_globalShortcuts (OsUnregister a) (delete a)
             (set_globalShortcutMap (delete a) st1))))) as H2.
  { run. rewrite H1. run. by rewrite lookup_delete_eq. }
  assert (mid = set_globalShortcuts (OsUnregister a) (delete a)
                  (set_globalShortcutMap (delete a) st1)) as Hmid.
  { unfold mid. run. rewrite H1. by run. }
  split.
  { rewrite (bind_run _ _ _ () Hn1). fold st1. unfold st2. by rewrite H2. }
  split.
  { rewrite Hmid. run. by rewrite !lookup_delete_eq. }
  unfold st2. rewrite H2. cbn [snd]. run.
  rewrite <- app_assoc. split; [done|].
  rewrite !lookup_insert_eq. split; [done|]. split; [done|].
  apply calledBy_intro. unfold pressGlobalShortcut. run.
  by rewrite lookup_insert_eq.
Qed.


(** *** Registration on all windows *)

Lemma forEach_preserves {A B} (g : State → B) (body : A → M ()) l st :
  (∀ x st', g (body x st').2 = g st') → g (forEach l body st).2 = g st.
Proof.
  intros Hbody. revert st. induction l as [|x l IH]; intros st; simpl; [done|].
  unfold mbind, M_bind. specialize (Hbody x st).
  destruct (body x st) as [[[]|e] st']; cbn [snd] in *; [|done].
  by rewrite IH.
Qed.

Lemma register_windowCreatedListeners st a f w o :
  windowCreatedListeners (register a f w o st).2 = windowCreatedListeners st.
Proof.
  destruct (normalize a) as [[ms k]|e] eqn:Ha.
  - by rewrite (register_run _ _ _ _ _ _ _ Ha).
  - by rewrite (register_throw _ _ _ _ _ _ Ha).
Qed.

(** Every call of [registerOnAll] adds a creation handler to [app], whatever
    is stored for the accelerator, and removes none. *)
Lemma registerOnAll_subscribes st a f o :
  windowCreatedListeners (registerOnAll normalizedModifierToInputProperty a f o st).2 =
    windowCreatedListeners st ++
      [{| ch_ref := nextRef st; ch_accelerator := a; ch_f := f; ch_options := o |}].
Proof.
  unfold registerOnAll. run.
  match goal with |- context [forEach ?l ?body ?s] =>
    pose proof (forEach_preserves windowCreatedListeners body l s
                  (λ x st', register_windowCreatedListeners st' a f x o)) as Hpres;
    destruct (forEach l body s) as [[[]|e] s']
  end; cbn [snd] in *; by rewrite Hpres.
Qed.

(** ** Further properties of [main.ts] and [cache.ts] *)

(** *** Registering and unregistering on one window *)

Lemma removeLast_middle {A} (P : A → bool) l1 x l2 :
  P x = true → Forall (λ y, P y = false) l2 →
  removeLast P (l1 ++ x :: l2) = l1 ++ l2.
Proof.
  intros Hx Hl2. unfold removeLast.
  rewrite reverse_app, reverse_cons, <- app_assoc.
  assert (∀ l l', Forall (λ y, P y = false) l →
            removeFirst P (l ++ x :: l') = l ++ l') as Hfirst.
  { intros l l'. induction 1 as [|y l Hy _ IH]; simpl; [by rewrite Hx|].
    by rewrite Hy, IH. }
  simpl. rewrite Hfirst by by apply Forall_reverse.
  by rewrite reverse_app, !reverse_involutive.
Qed.

Lemma filter_removeFirst_disjoint {A} (P : A → bool) (Q : A → Prop)
    `{!∀ x, Decision (Q x)} l :
  (∀ x, P x = true → ¬ Q x) → filter Q (removeFirst P l) = filter Q l.
Proof.
  intros HPQ. induction l as [|x l IH]; simpl; [done|].
  destruct (P x) eqn:HP.
  - by rewrite filter_cons_False by by apply HPQ.
  - destruct (decide (Q x)).
    + by rewrite !filter_cons_True, IH by done.
    + by rewrite !filter_cons_False by done.
Qed.

Lemma filter_removeLast_disjoint {A} (P : A → bool) (Q : A → Prop)
    `{!∀ x, Decision (Q x)} l :
  (∀ x, P x = true → ¬ Q x) → filter Q (removeLast P l) = filter Q l.
Proof.
  intros HPQ. unfold removeLast.
  by rewrite filter_reverse, filter_removeFirst_disjoint, <- filter_reverse,
    reverse_involutive.
Qed.

Lemma unregisterPreviousIfNeeded_local st a w :
  localShortcutMap (unregisterPreviousIfNeeded a w st).2 =
    delete (localKey a w) (localShortcutMap st).
Proof.
  rewrite unregisterPreviousIfNeeded_run. cbn [snd].
  destruct (localShortcutMap st !! localKey a w) as [[h0 w0]|] eqn:Hk; run; [done|].
  by rewrite delete_id.
Qed.

Lemma unregisterPreviousIfNeeded_absent st a w :
  localShortcutMap st !! localKey a w = None →
  (unregisterPreviousIfNeeded a w st).2 = st.
Proof. intros Hk. rewrite unregisterPreviousIfNeeded_run. by rewrite Hk. Qed.

(** X1. [register] followed by [unregister] for the same accelerator and
    window leaves what overriding the previous entry alone leaves, with one
    function reference used; when nothing was registered for them, the stores
    and the subscriptions are restored: no listener stays behind. *)
Theorem register_unregister_round_trip st a f w o ms k :
  normalize a = Normal (ms, k) →
  (register a f w o ;; unregister a w) st =
    (Normal (), set_nextRef S (unregisterPreviousIfNeeded a w st).2) ∧
  (localShortcutMap st !! localKey a w = None →
   (register a f w o ;; unregister a w) st = (Normal (), set_nextRef S st)).
Proof.
  intros Ha.
  assert ((register a f w o ;; unregister a w) st =
    (Normal (), set_nextRef S (unregisterPreviousIfNeeded a w st).2)) as Hrun.
  { unfold mbind at 1. unfold M_bind. rewrite (register_run _ _ _ _ _ _ _ Ha).
    erewrite unregister_present by (cbn [localShortcutMap]; apply lookup_insert_eq).
    pose proof (unregisterPreviousIfNeeded_local st a w) as Hlocal.
    rewrite unregisterPreviousIfNeeded_run in *. cbn [snd] in *.
    destruct (localShortcutMap st !! localKey a w) as [[h0 w0]|] eqn:Hk; run;
      (rewrite removeLast_snoc;
        [|cbn [fst snd]; unfold sameHandler; by rewrite !bool_decide_eq_true_2]);
      rewrite delete_insert_eq; [done|].
    by rewrite delete_id. }
  split; [done|]. intros Hk. rewrite Hrun.
  by rewrite unregisterPreviousIfNeeded_absent.
Qed.

Lemma calledBy_emit_snoc st base w i h :
  listenersOf w st = listenersOf w base ++ [h] →
  calledBy (emitBeforeInputEvent inputProperties w i) st =
    calledBy (emitBeforeInputEvent inputProperties w i) base ++
    calledBy (handler inputProperties h i) st.
Proof.
  intros Hls.
  destruct (forEach_handler_frame (listenersOf w base) i) as [K HK].
  assert (calledBy (emitBeforeInputEvent inputProperties w i) base = K) as ->.
  { apply calledBy_intro. unfold emitBeforeInputEvent, mbind, M_bind, gets.
    by rewrite HK. }
  rewrite calledBy_handler.
  apply calledBy_intro. unfold emitBeforeInputEvent, mbind, M_bind, gets.
  rewrite Hls, forEach_app. unfold mbind, M_bind. rewrite HK. simpl forEach.
  unfold mbind, M_bind. rewrite handler_run. cbn [mret M_ret snd].
  by rewrite set_called_app.
Qed.

Lemma calledBy_emit_same st st' w i :
  listenersOf w st' = listenersOf w st →
  calledBy (emitBeforeInputEvent inputProperties w i) st' =
    calledBy (emitBeforeInputEvent inputProperties w i) st.
Proof.
  intros Hls. destruct (emit_run w i st) as [K HK].
  rewrite (calledBy_intro _ st' K), (calledBy_intro _ st K); [done|..].
  - by rewrite HK.
  - by rewrite HK.
Qed.

(** X2. What [register] never touches, whether it returns or throws: the
    on-all store, the global store, the bindings of [globalShortcut], the
    creation handlers, the open windows, the entry of every other pair of an
    accelerator and a window, and the listeners of every other window, so
    that a key event on another window calls exactly what it called
    before. *)
Theorem register_frame st a f w o :
  let st' := (register a f w o st).2 in
  allShortcutMap st' = allShortcutMap st ∧
  globalShortcutMap st' = globalShortcutMap st ∧
  globalShortcuts st' = globalShortcuts st ∧
  globalShortcutCalls st' = globalShortcutCalls st ∧
  windowCreatedListeners st' = windowCreatedListeners st ∧
  allWindows st' = allWindows st ∧
  called st' = called st ∧
  (∀ a' w', (a', w') ≠ (a, w) →
     localShortcutMap st' !! localKey a' w' = localShortcutMap st !! localKey a' w') ∧
  (∀ w' i, w' ≠ w →
     listenersOf w' st' = listenersOf w' st ∧
     calledBy (emitBeforeInputEvent inputProperties w' i) st' =
       calledBy (emitBeforeInputEvent inputProperties w' i) st).
Proof.
  intros st'. unfold st'.
  destruct (normalize a) as [[ms k]|e] eqn:Ha.
  2: { rewrite (register_throw _ _ _ _ _ _ Ha). cbn [snd]. by repeat split. }
  rewrite (register_run _ _ _ _ _ _ _ Ha). cbn [snd].
  cbn [allShortcutMap globalShortcutMap globalShortcuts globalShortcutCalls
       windowCreatedListeners allWindows called localShortcutMap].
  do 7 (split; [done|]). split.
  - intros a' w' Hne. apply lookup_insert_ne.
    intros [<- <-]%localKey_inj. done.
  - intros w' i Hne.
    match goal with |- listenersOf w' ?s = _ ∧ _ =>
      assert (listenersOf w' s = listenersOf w' st) as Hls
    end.
    { unfold listenersOf. cbn [inputListeners].
      rewrite filter_app, filter_cons_False, filter_nil, app_nil_r
        by (cbn [fst]; congruence).
      rewrite unregisterPreviousIfNeeded_run. cbn [snd].
      destruct (localShortcutMap st !! localKey a w) as [[h0 w0]|]; [|done].
      run. rewrite filter_removeLast_disjoint; [done|].
      intros [w1 h1]. cbn [fst snd].
      intros [Hw _]%andb_true_iff. apply bool_decide_eq_true in Hw. congruence. }
    split; [done|]. by apply calledBy_emit_same.
Qed.

Lemma register_over_last st a f w o ms k h0 w0 L :
  normalize a = Normal (ms, k) →
  localShortcutMap st !! localKey a w = Some (h0, w0) →
  inputListeners st = L ++ [(w, h0)] →
  let h := {| h_ref := nextRef st;
              h_inputModifiers := normalizedModifierToInputProperty <$> ms;
              h_normalizedNonModifier := k;
              h_strict := default false (o ≫= opt_strict);
              h_f := f |} in
  (register a f w o st).1 = Normal () ∧
  localShortcutMap (register a f w o st).2 !! localKey a w = Some (h, w) ∧
  inputListeners (register a f w o st).2 = L ++ [(w, h)] ∧
  nextRef (register a f w o st).2 = S (nextRef st).
Proof.
  intros Ha Hk HL h. rewrite (register_run _ _ _ _ _ _ _ Ha). cbn [fst snd].
  cbn [localShortcutMap inputListeners nextRef].
  rewrite lookup_insert_eq. do 2 (split; [done|]). split; [|done].
  rewrite unregisterPreviousIfNeeded_run, Hk. run. rewrite HL.
  rewrite removeLast_snoc; [done|].
  cbn [fst snd]. unfold sameHandler. by rewrite !bool_decide_eq_true_2.
Qed.

Lemma register_again_many a w o ms k L fs :
  normalize a = Normal (ms, k) →
  ∀ st h0 w0 f,
    localShortcutMap st !! localKey a w = Some (h0, w0) →
    inputListeners st = L ++ [(w, h0)] →
    let r := forEach (fs ++ [f]) (λ g, register a g w o) st in
    let h := {| h_ref := nextRef st + length fs;
                h_inputModifiers := normalizedModifierToInputProperty <$> ms;
                h_normalizedNonModifier := k;
                h_strict := default false (o ≫= opt_strict);
                h_f := f |} in
    r.1 = Normal () ∧
    localShortcutMap r.2 !! localKey a w = Some (h, w) ∧
    inputListeners r.2 = L ++ [(w, h)].
Proof.
  intros Ha. induction fs as [|g fs IH]; intros st h0 w0 f Hk HL; cbn zeta.
  - destruct (register_over_last st a f w o ms k h0 w0 L Ha Hk HL)
      as (Hn & Hk' & HL' & _).
    simpl. rewrite (bind_run _ _ _ () Hn).
    cbn [mret M_ret fst snd]. by rewrite Nat.add_0_r.
  - destruct (register_over_last st a g w o ms k h0 w0 L Ha Hk HL)
      as (Hn & Hk' & HL' & Hr).
    simpl. rewrite (bind_run _ _ _ () Hn).
    specialize (IH _ _ _ f Hk' HL'). cbn zeta in IH. rewrite Hr in IH.
    by rewrite <- Nat.add_succ_comm.
Qed.

(** X3. Any number of [register] calls for one accelerator and one window,
    with any callbacks, leave one handler: the store holds the handler of the
    last call, the window's listeners are those that overriding the original
    entry leaves followed by that handler alone, and a key event calls what
    those listeners call and then at most the last callback. *)
Theorem register_many_single_handler st a w o ms k fs f :
  normalize a = Normal (ms, k) →
  let base := (unregisterPreviousIfNeeded a w st).2 in
  let r := forEach (fs ++ [f]) (λ g, register a g w o) st in
  let h := {| h_ref := nextRef st + length fs;
              h_inputModifiers := normalizedModifierToInputProperty <$> ms;
              h_normalizedNonModifier := k;
              h_strict := default false (o ≫= opt_strict);
              h_f := f |} in
  r.1 = Normal () ∧
  localShortcutMap r.2 !! localKey a w = Some (h, w) ∧
  inputListeners r.2 = inputListeners base ++ [(w, h)] ∧
  listenersOf w r.2 = listenersOf w base ++ [h] ∧
  ∀ i, calledBy (emitBeforeInputEvent inputProperties w i) r.2 =
         calledBy (emitBeforeInputEvent inputProperties w i) base ++
         calledBy (handler inputProperties h i) r.2.
Proof.
  intros Ha base r h.
  assert (r.1 = Normal () ∧
          localShortcutMap r.2 !! localKey a w = Some (h, w) ∧
          inputListeners r.2 = inputListeners base ++ [(w, h)]) as (Hn & Hk & HL).
  { unfold r, h. destruct fs as [|g fs].
    - simpl. unfold mbind, M_bind. rewrite (register_run _ _ _ _ _ _ _ Ha).
      cbn [mret M_ret fst snd localShortcutMap inputListeners].
      by rewrite lookup_insert_eq, Nat.add_0_r.
    - simpl. rewrite (bind_run _ _ _ ())
        by by rewrite (register_run _ _ _ _ _ _ _ Ha).
      rewrite (register_run _ _ _ _ _ _ _ Ha). cbn [snd].
      match goal with |- context [forEach _ _ ?s] =>
        destruct (register_again_many a w o ms k (inputListeners base) fs Ha s
                    _ w f (lookup_insert_eq _ _ _) eq_refl) as (H1 & H2 & H3)
      end.
      cbn [nextRef] in *. rewrite <- Nat.add_succ_comm. done. }
  do 3 (split; [done|]).
  assert (listenersOf w r.2 = listenersOf w base ++ [h]) as Hls.
  { unfold listenersOf. rewrite HL, filter_app, fmap_app.
    by rewrite filter_cons_True by done. }
  split; [done|]. intros i. by apply calledBy_emit_snoc.
Qed.

(** *** The matcher, continued *)

Lemma modifiersCheck_ext strict (ims1 ims2 : list InputProperty) i1 i2 :
  (∀ p, p ∈ ims1 ↔ p ∈ ims2) →
  (∀ p, input_flag i1 p = input_flag i2 p) →
  modifiersCheck inputProperties strict ims1 i1 =
    modifiersCheck inputProperties strict ims2 i2.
Proof.
  intros Hims Hflags. apply eq_true_iff_eq. destruct strict; cbn [modifiersCheck].
  - rewrite !modifiersCheckStrict_spec. split; intros [H1 H2]; split.
    + intros p Hp. rewrite <- Hflags. by apply H1, Hims.
    + intros p Hp Hnot. rewrite <- Hflags. apply H2; [done|]. by rewrite Hims.
    + intros p Hp. rewrite Hflags. by apply H1, Hims.
    + intros p Hp Hnot. rewrite Hflags. apply H2; [done|]. by rewrite <- Hims.
  - rewrite !modifiersCheckNonStrict_spec. split; intros H p Hp.
    + rewrite <- Hflags. by apply H, Hims.
    + rewrite Hflags. by apply H, Hims.
Qed.

(** X4. What a handler does with an event depends only on the event's type,
    on the keys up to letter case, on which modifiers it requires (neither
    their order nor repetitions matter), on its strictness and on the
    flags: two handlers that agree on these call the same callback on the
    same events. *)
Theorem handler_depends_on_normal_form st h1 h2 i1 i2 :
  (∀ p, p ∈ h_inputModifiers h1 ↔ p ∈ h_inputModifiers h2) →
  toLowerCase (h_normalizedNonModifier h1) = toLowerCase (h_normalizedNonModifier h2) →
  h_strict h1 = h_strict h2 →
  h_f h1 = h_f h2 →
  input_type i1 = input_type i2 →
  toLowerCase (input_key i1) = toLowerCase (input_key i2) →
  (∀ p, input_flag i1 p = input_flag i2 p) →
  calledBy (handler inputProperties h1 i1) st =
    calledBy (handler inputProperties h2 i2) st.
Proof.
  intros Hims Hkey Hstrict Hf Htype Hikey Hflags.
  rewrite !calledBy_handler, Htype, Hikey, Hkey, Hstrict, Hf.
  by rewrite (modifiersCheck_ext _ _ _ i1 i2 Hims Hflags).
Qed.

(** X5. Strict matching refines non-strict matching: whenever the strict
    handler calls the callback, the non-strict handler for the same
    accelerator does too, and the two agree on every event in which no flag
    of [inputProperties] outside the required ones is held. *)
Theorem strict_refines_non_strict st r ims k f i :
  let h strict := {| h_ref := r; h_inputModifiers := ims;
                     h_normalizedNonModifier := k; h_strict := strict; h_f := f |} in
  (calledBy (handler inputProperties (h true) i) st = [f] →
   calledBy (handler inputProperties (h false) i) st = [f]) ∧
  ((∀ p, p ∈ inputProperties → p ∉ ims → input_flag i p = false) →
   calledBy (handler inputProperties (h true) i) st =
     calledBy (handler inputProperties (h false) i) st).
Proof.
  intros h. rewrite !calledBy_handler.
  cbn [h h_normalizedNonModifier h_strict h_inputModifiers h_f modifiersCheck].
  destruct (decide (input_type i = keyUp)); [done|].
  destruct (bool_decide (toLowerCase (input_key i) = toLowerCase k)); cbn [andb];
    [|done].
  unfold modifiersCheckStrict at 1.
  split.
  - by destruct (modifiersCheckNonStrict ims i).
  - intros Hno.
    assert (modifiersCheckStrict inputProperties ims i =
            modifiersCheckNonStrict ims i) as ->; [|done].
    apply eq_true_iff_eq.
    rewrite modifiersCheckStrict_spec, modifiersCheckNonStrict_spec. tauto.
Qed.

(** *** The global scope, continued *)

Lemma registerGlobal_run st a f :
  registerGlobal a f st =
    (Normal (),
     let st0 := match globalShortcutMap st !! a with
                | Some _ => set_globalShortcuts (OsUnregister a) (delete a)
                              (set_globalShortcutMap (delete a) st)
                | None => st
                end in
     set_globalShortcuts (OsRegister a f)
       (λ m, match m !! a with Some _ => m | None => <[a := f]> m end)
       (set_globalShortcutMap <[a := f]> st0)).
Proof. run. by destruct (globalShortcutMap st !! a); run. Qed.



(** X8. The global store and the bindings of [globalShortcut] stay in step:
    if they hold the same callbacks before [registerGlobal] or
    [unregisterGlobal], they do afterwards, and then pressing an accelerator
    just registered calls its callback once and nothing else. *)
Theorem global_store_matches_bindings st a f :
  globalShortcutMap st = globalShortcuts st →
  globalShortcutMap (registerGlobal a f st).2 = globalShortcuts (registerGlobal a f st).2 ∧
  globalShortcutMap (unregisterGlobal a st).2 = globalShortcuts (unregisterGlobal a st).2 ∧
  calledBy (pressGlobalShortcut a) (registerGlobal a f st).2 = [f].
Proof.
  intros Hsync.
  assert (globalShortcutMap (registerGlobal a f st).2 = <[a := f]> (globalShortcutMap st)
          ∧ globalShortcuts (registerGlobal a f st).2 = <[a := f]> (globalShortcutMap st))
    as [Hm Hb].
  { rewrite registerGlobal_run. cbn [snd].
    destruct (globalShortcutMap st !! a) as [g|] eqn:Hg; run.
    - rewrite lookup_delete_eq, <- Hsync. by rewrite !insert_delete_eq.
    - by rewrite <- Hsync, Hg. }
  split; [by rewrite Hm, Hb|]. split.
  - run. by rewrite Hsync.
  - apply calledBy_intro. unfold pressGlobalShortcut, mbind, M_bind, gets.
    by rewrite Hb, lookup_insert_eq.
Qed.


(** *** The on-all scope, continued *)


Lemma register_normal st a f w o ms k :
  normalize a = Normal (ms, k) → (register a f w o st).1 = Normal ().
Proof. intros Ha. by rewrite (register_run _ _ _ _ _ _ _ Ha). Qed.

Lemma register_fields st a f w o :
  allShortcutMap (register a f w o st).2 = allShortcutMap st ∧
  allWindows (register a f w o st).2 = allWindows st ∧
  globalShortcutMap (register a f w o st).2 = globalShortcutMap st ∧
  globalShortcuts (register a f w o st).2 = globalShortcuts st.
Proof.
  destruct (normalize a) as [[ms k]|e] eqn:Ha.
  - by rewrite (register_run _ _ _ _ _ _ _ Ha).
  - by rewrite (register_throw _ _ _ _ _ _ Ha).
Qed.

Lemma register_entry st a f w o ms k :
  normalize a = Normal (ms, k) →
  ∃ h, localShortcutMap (register a f w o st).2 !! localKey a w = Some (h, w) ∧
       h_f h = f ∧ h_strict h = default false (o ≫= opt_strict) ∧
       h_inputModifiers h = normalizedModifierToInputProperty <$> ms ∧
       h_normalizedNonModifier h = k.
Proof.
  intros Ha. rewrite (register_run _ _ _ _ _ _ _ Ha). cbn [snd localShortcutMap].
  eexists. rewrite lookup_insert_eq. by split.
Qed.

Lemma register_entry_other st a f w o w' :
  w' ≠ w →
  localShortcutMap (register a f w o st).2 !! localKey a w' =
    localShortcutMap st !! localKey a w'.
Proof.
  intros Hne. destruct (normalize a) as [[ms k]|e] eqn:Ha.
  - rewrite (register_run _ _ _ _ _ _ _ Ha). cbn [snd localShortcutMap].
    apply lookup_insert_ne. intros [_ ?]%localKey_inj. done.
  - by rewrite (register_throw _ _ _ _ _ _ Ha).
Qed.

Lemma forEach_register_entries a f o ms k ws :
  normalize a = Normal (ms, k) →
  ∀ st,
    let entry st w :=
      ∃ h, localShortcutMap st !! localKey a w = Some (h, w) ∧
           h_f h = f ∧ h_strict h = default false (o ≫= opt_strict) ∧
           h_inputModifiers h = normalizedModifierToInputProperty <$> ms ∧
           h_normalizedNonModifier h = k in
    let r := forEach ws (λ win, register a f win o) st in
    r.1 = Normal () ∧ ∀ w, w ∈ ws ∨ entry st w → entry r.2 w.
Proof.
  intros Ha. induction ws as [|x ws IH]; intros st entry r.
  - split; [done|]. intros w [Hw|Hw]; [|done]. by apply elem_of_nil in Hw.
  - unfold r. simpl. rewrite (bind_run _ _ _ ()) by by eapply register_normal.
    destruct (IH (register a f x o st).2) as [Hn Hentries].
    split; [done|]. intros w Hw. apply Hentries.
    destruct (decide (w = x)) as [->|Hne].
    + right. by apply register_entry.
    + destruct Hw as [[?|Hw]%elem_of_cons|Hw]; [done|by left|].
      right. destruct Hw as (h & Hh & Hrest). exists h.
      by rewrite register_entry_other.
Qed.

(** X10. [registerOnAll] with a well-formed accelerator returns normally,
    stores its creation handler under the accelerator, and leaves every
    window that was open with an entry for the accelerator whose handler
    carries the given callback, the strictness of the options and the
    normalized modifiers and key. The set of open windows is unchanged. *)
Theorem registerOnAll_registers_open_windows st a f o ms k :
  normalize a = Normal (ms, k) →
  let r := registerOnAll normalizedModifierToInputProperty a f o st in
  r.1 = Normal () ∧
  isRegisteredOnAll a r.2 = (Normal true, r.2) ∧
  allWindows r.2 = allWindows st ∧
  ∀ w, w ∈ allWindows st →
    isRegisteredLocal a w r.2 = (Normal true, r.2) ∧
    ∃ h, localShortcutMap r.2 !! localKey a w = Some (h, w) ∧
         h_f h = f ∧ h_strict h = default false (o ≫= opt_strict) ∧
         h_inputModifiers h = normalizedModifierToInputProperty <$> ms ∧
         h_normalizedNonModifier h = k.
Proof.
  intros Ha r. unfold r, registerOnAll. run.
  match goal with |- context [forEach ?l ?body ?s] =>
    destruct (forEach_register_entries a f o ms k l Ha s) as [Hn Hentries];
    pose proof (forEach_preserves allShortcutMap body l s
                  (λ x st', proj1 (register_fields st' a f x o))) as Hall;
    pose proof (forEach_preserves allWindows body l s
                  (λ x st', proj1 (proj2 (register_fields st' a f x o)))) as Hwin;
    destruct (forEach l body s) as [c s'] eqn:Hrun
  end.
  cbn [fst snd allShortcutMap allWindows] in *. subst c.
  split; [done|]. rewrite Hall, lookup_insert_eq. cbn [truthy].
  split; [done|]. split; [done|]. intros w Hw.
  destruct (Hentries w (or_introl Hw)) as (h & Hh & Hrest).
  rewrite Hh. cbn [truthy]. split; [done|]. by exists h.
Qed.

(** X11. [registerOnAll] subscribes its creation handler and stores it
    before anything parses the accelerator. With no window open it returns
    normally whatever the accelerator; with a malformed accelerator and a
    window open it throws MalformedAccelerator from the first [register],
    having changed no local entry and no window's listeners; in every case
    the entry is stored and the handler subscribed. *)
Theorem registerOnAll_stores_before_parsing st a f o :
  let r := registerOnAll normalizedModifierToInputProperty a f o st in
  let ch := {| ch_ref := nextRef st; ch_accelerator := a; ch_f := f; ch_options := o |} in
  allShortcutMap r.2 !! a = Some ch ∧
  windowCreatedListeners r.2 = windowCreatedListeners st ++ [ch] ∧
  (allWindows st = [] → r.1 = Normal ()) ∧
  (∀ e, normalize a = Throw e → allWindows st ≠ [] →
     r.1 = Throw MalformedAccelerator ∧
     localShortcutMap r.2 = localShortcutMap st ∧
     inputListeners r.2 = inputListeners st).
Proof.
  intros r ch. split; [|split; [apply registerOnAll_subscribes|]].
  { unfold r, registerOnAll. run.
    match goal with |- context [forEach ?l ?body ?s] =>
      pose proof (forEach_preserves allShortcutMap body l s
                    (λ x st', proj1 (register_fields st' a f x o))) as Hall
    end.
    match goal with |- allShortcutMap ?s !! a = _ =>
      assert (allShortcutMap s = <[a := ch]> (allShortcutMap st)) as ->
    end.
    { match goal with |- context [forEach ?l ?body ?s] =>
        destruct (forEach l body s) as [[[]|?] ?] end; exact Hall. }
    apply lookup_insert_eq. }
  unfold r, registerOnAll. run. split.
  - intros ->. done.
  - intros e Ha Hws. destruct (allWindows st) as [|w ws]; [done|].
    simpl. unfold mbind, M_bind.
    rewrite (register_throw _ _ _ _ _ _ Ha). cbn [fst snd].
    by rewrite (normalize_throws _ _ Ha).
Qed.

Lemma forEach_creationHandler_normal (L : list CreationHandler) w :
  Forall (λ ch, ∃ n, normalize (ch_accelerator ch) = Normal n) L →
  ∀ st, (forEach L (λ c, creationHandler normalizedModifierToInputProperty c w) st).1
          = Normal ().
Proof.
  induction 1 as [|ch L [[ms k] Hch] _ IH]; intros st; [done|].
  simpl. rewrite (bind_run _ _ _ ()); [apply IH|].
  unfold creationHandler. by eapply register_normal.
Qed.

(** X12. A window created after [registerOnAll] gets the shortcut: if the
    accelerator is well-formed, and so are those of the creation handlers
    already subscribed, creating a window returns normally, the window is
    among the open ones, and it has an entry for the accelerator whose
    handler carries the callback, with no further call. *)
Theorem window_created_after_registerOnAll st a f o w ms k :
  normalize a = Normal (ms, k) →
  Forall (λ ch, ∃ n, normalize (ch_accelerator ch) = Normal n)
    (windowCreatedListeners st) →
  let st1 := (registerOnAll normalizedModifierToInputProperty a f o st).2 in
  let r := createWindow normalizedModifierToInputProperty w st1 in
  r.1 = Normal () ∧
  w ∈ allWindows r.2 ∧
  isRegisteredLocal a w r.2 = (Normal true, r.2) ∧
  ∃ h, localShortcutMap r.2 !! localKey a w = Some (h, w) ∧
       h_f h = f ∧ h_strict h = default false (o ≫= opt_strict).
Proof.
  intros Ha HL st1 r.
  pose proof (registerOnAll_subscribes st a f o) as Hsub. fold st1 in Hsub.
  unfold r, createWindow. run. rewrite Hsub, forEach_app.
  unfold creationHandler.
  match goal with |- context [(forEach (windowCreatedListeners st) ?body ;; ?rest) ?s] =>
    pose proof (forEach_creationHandler_normal _ w HL s) as Hn;
    unfold creationHandler in Hn;
    pose proof (forEach_preserves allWindows body (windowCreatedListeners st) s
                  (λ x st', proj1 (proj2 (register_fields st' _ _ w _)))) as Hws;
    rewrite (bind_run _ _ _ () Hn);
    set (s1 := (forEach (windowCreatedListeners st) body s).2) in *
  end.
  simpl forEach. cbn [ch_accelerator ch_f ch_options].
  rewrite (bind_run _ _ _ ()) by by eapply register_normal.
  cbn [mret M_ret fst snd].
  destruct (register_entry s1 a f w o ms k Ha) as (h & Hh & Hf & Hs & _).
  split; [done|]. split.
  { rewrite (proj1 (proj2 (register_fields s1 a f w o))), Hws. cbn [allWindows].
    apply elem_of_app. right. by apply list_elem_of_singleton. }
  rewrite Hh. cbn [truthy]. split; [done|]. by exists h.
Qed.

Lemma unregister_fields st a w :
  allShortcutMap (unregister a w st).2 = allShortcutMap st ∧
  windowCreatedListeners (unregister a w st).2 = windowCreatedListeners st ∧
  allWindows (unregister a w st).2 = allWindows st ∧
  nextRef (unregister a w st).2 = nextRef st.
Proof.
  destruct (localShortcutMap st !! localKey a w) as [[h0 w0]|] eqn:Hk.
  - by rewrite (unregister_present _ _ _ _ _ Hk).
  - by rewrite (unregister_absent _ _ _ Hk).
Qed.

Lemma unregister_local st a w :
  localShortcutMap (unregister a w st).2 = delete (localKey a w) (localShortcutMap st).
Proof.
  destruct (localShortcutMap st !! localKey a w) as [[h0 w0]|] eqn:Hk.
  - by rewrite (unregister_present _ _ _ _ _ Hk).
  - rewrite (unregister_absent _ _ _ Hk). by rewrite delete_id.
Qed.


Lemma forEach_unregister_normal a ws :
  NoDup ws →
  ∀ st, (∀ w, w ∈ ws → is_Some (localShortcutMap st !! localKey a w)) →
    let r := forEach ws (unregister a) st in
    r.1 = Normal () ∧
    (∀ w, w ∈ ws → localShortcutMap r.2 !! localKey a w = None) ∧
    (∀ k', k' ∉ localKey a <$> ws →
       localShortcutMap r.2 !! k' = localShortcutMap st !! k').
Proof.
  induction 1 as [|x ws Hx _ IH]; intros st Hall r.
  - split; [done|]. split; [|done]. intros w Hw. by apply elem_of_nil in Hw.
  - destruct (Hall x) as [[h0 w0] Hkx]; [apply elem_of_cons; by left|].
    assert ((unregister a x st).1 = Normal ()) as Hn
      by by rewrite (unregister_present _ _ _ _ _ Hkx).
    unfold r. simpl. rewrite (bind_run _ _ _ () Hn).
    destruct (IH (unregister a x st).2) as (Hn' & Hgone & Hother).
    { intros w Hw. rewrite unregister_local, lookup_delete_ne.
      - apply Hall, elem_of_cons. by right.
      - intros [_ ->]%localKey_inj. done. }
    split; [done|]. split.
    + intros w [->|Hw]%elem_of_cons; [|by apply Hgone].
      rewrite Hother.
      * rewrite unregister_local. apply lookup_delete_eq.
      * intros (w' & [_ ->]%localKey_inj & Hw')%list_elem_of_fmap. done.
    + intros k' Hk'. cbn [fmap list_fmap] in Hk'.
      apply not_elem_of_cons in Hk' as [Hne Hk'].
      rewrite (Hother _ Hk'), unregister_local.
      by rewrite lookup_delete_ne.
Qed.



Lemma unregisterOnAll_run st a :
  unregisterOnAll a st =
    forEach (allWindows st) (unregister a)
      match allShortcutMap st !! a with
      | Some ch =>
          set_allShortcutMap (delete a)
            (set_windowCreatedListeners
               (removeLast (λ e, sameCreationHandler e ch)) st)
      | None => st
      end.
Proof. unfold unregisterOnAll. run. by destruct (allShortcutMap st !! a); run. Qed.

Lemma register_inputListeners_fresh st a f w o ms k :
  normalize a = Normal (ms, k) →
  localShortcutMap st !! localKey a w = None →
  inputListeners (register a f w o st).2 =
    inputListeners st ++
      [(w, {| h_ref := nextRef st;
              h_inputModifiers := normalizedModifierToInputProperty <$> ms;
              h_normalizedNonModifier := k;
              h_strict := default false (o ≫= opt_strict);
              h_f := f |})] ∧
  localShortcutMap (register a f w o st).2 =
    <[localKey a w :=
        ({| h_ref := nextRef st;
            h_inputModifiers := normalizedModifierToInputProperty <$> ms;
            h_normalizedNonModifier := k;
            h_strict := default false (o ≫= opt_strict);
            h_f := f |}, w)]> (localShortcutMap st) ∧
  nextRef (register a f w o st).2 = S (nextRef st).
Proof.
  intros Ha Hk. rewrite (register_run _ _ _ _ _ _ _ Ha). cbn [snd].
  cbn [inputListeners localShortcutMap nextRef].
  by rewrite (unregisterPreviousIfNeeded_absent _ _ _ Hk).
Qed.

Lemma forEach_register_fresh a f o ms k ws :
  normalize a = Normal (ms, k) →
  NoDup ws →
  ∀ st, (∀ w, w ∈ ws → localShortcutMap st !! localKey a w = None) →
    let mk n := {| h_ref := n;
                   h_inputModifiers := normalizedModifierToInputProperty <$> ms;
                   h_normalizedNonModifier := k;
                   h_strict := default false (o ≫= opt_strict);
                   h_f := f |} in
    let r := forEach ws (λ win, register a f win o) st in
    r.1 = Normal () ∧
    inputListeners r.2 =
      inputListeners st ++ imap (λ j w, (w, mk (nextRef st + j))) ws ∧
    (∀ j w, ws !! j = Some w →
       localShortcutMap r.2 !! localKey a w = Some (mk (nextRef st + j), w)) ∧
    (∀ k', k' ∉ localKey a <$> ws →
       localShortcutMap r.2 !! k' = localShortcutMap st !! k').
Proof.
  intros Ha. induction 1 as [|x ws Hx _ IH]; intros st Hfresh mk r.
  - split; [done|]. split; [by rewrite app_nil_r|]. by split.
  - destruct (register_inputListeners_fresh st a f x o ms k Ha) as (HL & Hm & Hr).
    { apply Hfresh, elem_of_cons. by left. }
    unfold r. simpl forEach.
    rewrite (bind_run _ _ _ ()) by by eapply register_normal.
    destruct (IH (register a f x o st).2) as (Hn & HL' & Hin & Hother).
    { intros w Hw. rewrite Hm, lookup_insert_ne.
      - apply Hfresh, elem_of_cons. by right.
      - intros [_ ->]%localKey_inj. done. }
    split; [done|]. split; [|split].
    + rewrite HL', HL, Hr, <- app_assoc. f_equal. rewrite imap_cons. simpl.
      rewrite Nat.add_0_r. f_equal. apply imap_ext. intros j w _. simpl.
      by rewrite Nat.add_succ_r.
    + intros [|j] w Hjw; simpl in Hjw.
      * injection Hjw as ->. rewrite Hother, Hm, lookup_insert_eq, Nat.add_0_r; [done|].
        intros (w' & [_ ->]%localKey_inj & Hw')%list_elem_of_fmap. done.
      * rewrite (Hin _ _ Hjw), Hr. by rewrite Nat.add_succ_r.
    + intros k' Hk'. cbn [fmap list_fmap] in Hk'.
      apply not_elem_of_cons in Hk' as [Hne Hk'].
      by rewrite (Hother _ Hk'), Hm, lookup_insert_ne.
Qed.

Lemma forEach_unregister_block a (mk : nat → Handler) ws :
  (∀ n, h_ref (mk n) = n) →
  NoDup ws →
  ∀ n0 st L,
    inputListeners st = L ++ imap (λ j w, (w, mk (n0 + j))) ws →
    (∀ j w, ws !! j = Some w →
       localShortcutMap st !! localKey a w = Some (mk (n0 + j), w)) →
    inputListeners (forEach ws (unregister a) st).2 = L.
Proof.
  intros Hmk. induction 1 as [|x ws Hx _ IH]; intros n0 st L HL Hin.
  - simpl in *. by rewrite app_nil_r in HL.
  - pose proof (Hin 0 x eq_refl) as Hkx.
    simpl forEach.
    rewrite (bind_run _ _ _ ()) by by rewrite (unregister_present _ _ _ _ _ Hkx).
    apply (IH (S n0)).
    + rewrite (unregister_present _ _ _ _ _ Hkx). run. rewrite HL, imap_cons.
      rewrite removeLast_middle.
      * f_equal. apply imap_ext. intros j w _. simpl. by rewrite Nat.add_succ_r.
      * cbn [fst snd]. unfold sameHandler. by rewrite !bool_decide_eq_true_2.
      * apply Forall_forall. intros [w' h'] (j & w & [= -> ->] & Hjw)%elem_of_lookup_imap.
        cbn [fst]. rewrite bool_decide_eq_false_2; [done|].
        intros ->. by apply list_elem_of_lookup_2 in Hjw.
    + intros j w Hjw. rewrite unregister_local, lookup_delete_ne.
      * rewrite (Hin (S j) w Hjw). by rewrite Nat.add_succ_r.
      * intros [_ ->]%localKey_inj. by apply list_elem_of_lookup_2 in Hjw.
Qed.

Lemma registerOnAll_unregisterOnAll_fields st a f o ms k :
  normalize a = Normal (ms, k) →
  NoDup (allWindows st) →
  (∀ w, w ∈ allWindows st → localShortcutMap st !! localKey a w = None) →
  allShortcutMap st !! a = None →
  let r := (registerOnAll normalizedModifierToInputProperty a f o ;;
            unregisterOnAll a) st in
  r.1 = Normal () ∧
  localShortcutMap r.2 = localShortcutMap st ∧
  allShortcutMap r.2 = allShortcutMap st ∧
  inputListeners r.2 = inputListeners st ∧
  windowCreatedListeners r.2 = windowCreatedListeners st ∧
  allWindows r.2 = allWindows st.
Proof.
  intros Ha Hnd Hfresh Hall r.
  set (ch := {| ch_ref := nextRef st; ch_accelerator := a; ch_f := f;
                ch_options := o |}).
  set (mk n := {| h_ref := n;
                  h_inputModifiers := normalizedModifierToInputProperty <$> ms;
                  h_normalizedNonModifier := k;
                  h_strict := default false (o ≫= opt_strict);
                  h_f := f |}).
  set (body := λ win : N, register a f win o).
  set (sa := set_allShortcutMap <[a := ch]>
               (set_windowCreatedListeners (λ l, l ++ [ch]) (set_nextRef S st))).
  assert (registerOnAll normalizedModifierToInputProperty a f o st =
          forEach (allWindows st) body sa) as Hreg by done.
  destruct (forEach_register_fresh a f o ms k (allWindows st) Ha Hnd sa Hfresh)
    as (Hn1 & HL1 & Hin1 & Hother1).
  fold body mk in Hn1, HL1, Hin1, Hother1.
  pose proof (forEach_preserves allShortcutMap body (allWindows st) sa
                (λ x st', proj1 (register_fields st' a f x o))) as Hall1.
  pose proof (forEach_preserves allWindows body (allWindows st) sa
                (λ x st', proj1 (proj2 (register_fields st' a f x o)))) as Hwin1.
  pose proof (forEach_preserves windowCreatedListeners body (allWindows st) sa
                (λ x st', register_windowCreatedListeners st' a f x o)) as Hwcl1.
  set (s1 := (forEach (allWindows st) body sa).2) in *.
  cbn [sa allShortcutMap allWindows windowCreatedListeners inputListeners nextRef
       set_allShortcutMap set_windowCreatedListeners set_nextRef] in Hall1, Hwin1, Hwcl1, HL1, Hin1.
  assert (r = unregisterOnAll a s1) as ->.
  { unfold r. rewrite (bind_run _ _ _ ()); by rewrite Hreg. }
  rewrite unregisterOnAll_run, Hall1, lookup_insert_eq, Hwin1.
  set (sb := set_allShortcutMap (delete a) _).
  assert (localShortcutMap sb = localShortcutMap s1 ∧
          inputListeners sb = inputListeners s1 ∧
          allShortcutMap sb = allShortcutMap st ∧
          windowCreatedListeners sb = windowCreatedListeners st ∧
          allWindows sb = allWindows st) as (Hlb & HLb & Hab & Hwb & Hwsb).
  { unfold sb. run. rewrite Hall1, Hwcl1, Hwin1.
    rewrite delete_insert_id by done. rewrite removeLast_snoc; [done|].
    unfold sameCreationHandler. by rewrite bool_decide_eq_true_2. }
  destruct (forEach_unregister_normal a (allWindows st) Hnd sb)
    as (Hn2 & Hgone & Hother2).
  { intros w Hw. apply list_elem_of_lookup_1 in Hw as [j Hj].
    rewrite Hlb, (Hin1 _ _ Hj). by eexists. }
  pose proof (forEach_unregister_block a mk (allWindows st) (λ n, eq_refl) Hnd
                (S (nextRef st)) sb (inputListeners st)) as HL2.
  pose proof (forEach_preserves allShortcutMap (unregister a) (allWindows st) sb
                (λ x st', proj1 (unregister_fields st' a x))) as Hall2.
  pose proof (forEach_preserves windowCreatedListeners (unregister a)
                (allWindows st) sb
                (λ x st', proj1 (proj2 (unregister_fields st' a x)))) as Hwcl2.
  pose proof (forEach_preserves allWindows (unregister a) (allWindows st) sb
                (λ x st', proj1 (proj2 (proj2 (unregister_fields st' a x))))) as Hwin2.
  split; [done|]. split; [|split; [|split; [|split]]].
  - apply map_eq. intros k'.
    destruct (decide (k' ∈ localKey a <$> allWindows st)) as [Hk'|Hk'].
    + apply list_elem_of_fmap in Hk' as (w & -> & Hw).
      by rewrite (Hgone _ Hw), (Hfresh _ Hw).
    + by rewrite (Hother2 _ Hk'), Hlb, (Hother1 _ Hk').
  - by rewrite Hall2, Hab.
  - apply HL2.
    + by rewrite HLb, HL1.
    + intros j w Hj. by rewrite Hlb, (Hin1 _ _ Hj).
  - by rewrite Hwcl2, Hwb.
  - by rewrite Hwin2, Hwsb.
Qed.

(** X15. [registerOnAll] followed by [unregisterOnAll] is a round trip when
    the accelerator is well-formed and new: with distinct open windows, none
    of which has an entry for the accelerator, and no on-all entry for it,
    the two calls return normally and the local store, the on-all store, the
    listeners of every window and the creation handlers of [app] are exactly
    what they were. No listener is left behind. *)
Theorem registerOnAll_unregisterOnAll_round_trip st a f o ms k :
  normalize a = Normal (ms, k) →
  NoDup (allWindows st) →
  (∀ w, w ∈ allWindows st → localShortcutMap st !! localKey a w = None) →
  allShortcutMap st !! a = None →
  let r := (registerOnAll normalizedModifierToInputProperty a f o ;;
            unregisterOnAll a) st in
  r.1 = Normal () ∧
  localShortcutMap r.2 = localShortcutMap st ∧
  allShortcutMap r.2 = allShortcutMap st ∧
  inputListeners r.2 = inputListeners st ∧
  windowCreatedListeners r.2 = windowCreatedListeners st ∧
  allWindows r.2 = allWindows st.
Proof. apply registerOnAll_unregisterOnAll_fields. Qed.

Lemma forEach_preserves_Forall {A B} (g : State → B) (body : A → M ()) (P : A → Prop) l :
  (∀ x st', P x → g (body x st').2 = g st') →
  Forall P l → ∀ st, g (forEach l body st).2 = g st.
Proof.
  intros Hbody. induction 1 as [|x l Hx _ IH]; intros st; simpl; [done|].
  unfold mbind, M_bind. specialize (Hbody x st Hx).
  destruct (body x st) as [[[]|e] st']; cbn [snd] in *; [|done].
  by rewrite IH.
Qed.

Lemma register_local_other_accelerator st a' f w o a :
  a' ≠ a →
  localShortcutMap (register a' f w o st).2 !! localKey a w =
    localShortcutMap st !! localKey a w.
Proof.
  intros Hne. destruct (normalize a') as [[ms k]|e] eqn:Ha.
  - rewrite (register_run _ _ _ _ _ _ _ Ha). cbn [snd localShortcutMap].
    apply lookup_insert_ne. intros [? _]%localKey_inj. done.
  - by rewrite (register_throw _ _ _ _ _ _ Ha).
Qed.

(** X16. After [registerOnAll] and [unregisterOnAll] under the conditions of
    the round trip, no hook remains: if moreover none of the creation
    handlers subscribed before belongs to the accelerator, a window created
    afterwards has no entry for it. *)
Theorem no_propagation_after_unregisterOnAll st a f o ms k w :
  normalize a = Normal (ms, k) →
  NoDup (allWindows st) →
  (∀ w', w' ∈ allWindows st → localShortcutMap st !! localKey a w' = None) →
  allShortcutMap st !! a = None →
  Forall (λ ch, ch_accelerator ch ≠ a) (windowCreatedListeners st) →
  localShortcutMap st !! localKey a w = None →
  let st2 := ((registerOnAll normalizedModifierToInputProperty a f o ;;
               unregisterOnAll a) st).2 in
  isRegisteredLocal a w (createWindow normalizedModifierToInputProperty w st2).2 =
    (Normal false, (createWindow normalizedModifierToInputProperty w st2).2).
Proof.
  intros Ha Hnd Hfresh Hall Hothers Hw st2.
  destruct (registerOnAll_unregisterOnAll_fields st a f o ms k
              Ha Hnd Hfresh Hall) as (_ & Hl & _ & _ & Hwcl & _).
  fold st2 in Hl, Hwcl.
  rewrite isRegisteredLocal_run.
  assert (localShortcutMap (createWindow normalizedModifierToInputProperty w st2).2
            !! localKey a w = None) as ->; [|done].
  unfold createWindow. run. rewrite Hwcl.
  rewrite (forEach_preserves_Forall (λ s, localShortcutMap s !! localKey a w)
             (λ c, creationHandler normalizedModifierToInputProperty c w)
             (λ ch, ch_accelerator ch ≠ a) _
             (λ x st' Hx,
                register_local_other_accelerator st' (ch_accelerator x) (ch_f x)
                  w (ch_options x) a Hx) Hothers).
  cbn [localShortcutMap]. by rewrite Hl.
Qed.

(** *** [unregister] and the stores *)

Lemma listeners_removeFirst (w : N) (R : @Handler InputProperty → bool) (l : list (N * @Handler InputProperty)) :
  snd <$> filter (λ e, e.1 = w)
            (removeFirst (λ e, bool_decide (e.1 = w) && R e.2) l) =
  removeFirst R (snd <$> filter (λ e, e.1 = w) l).
Proof.
  induction l as [|[w' h'] l IH]; [done|]. cbn [removeFirst fst snd].
  destruct (decide (w' = w)) as [->|Hne].
  - rewrite bool_decide_eq_true_2 by done. cbn [andb].
    rewrite (filter_cons_True _ (w, h')) by done. cbn [fmap list_fmap removeFirst snd].
    destruct (R h'); [done|].
    rewrite filter_cons_True by done. cbn [fmap list_fmap snd]. by rewrite IH.
  - rewrite bool_decide_eq_false_2 by done. cbn [andb].
    by rewrite !filter_cons_False by done.
Qed.

Lemma listeners_removeLast (w : N) (R : @Handler InputProperty → bool) (l : list (N * @Handler InputProperty)) :
  snd <$> filter (λ e, e.1 = w)
            (removeLast (λ e, bool_decide (e.1 = w) && R e.2) l) =
  removeLast R (snd <$> filter (λ e, e.1 = w) l).
Proof.
  unfold removeLast.
  by rewrite filter_reverse, fmap_reverse, listeners_removeFirst, filter_reverse,
    fmap_reverse.
Qed.

(** X17. [unregister] of a stored entry returns normally, deletes the entry,
    and removes from the listeners of the window it is given the most
    recently added occurrence of the stored handler and nothing else. The
    listeners of other windows, the entries of every other pair of an
    accelerator and a window, the on-all and global stores and the creation
    handlers are untouched. *)
Theorem unregister_effect st a w h0 w0 :
  localShortcutMap st !! localKey a w = Some (h0, w0) →
  let r := unregister a w st in
  r.1 = Normal () ∧
  isRegisteredLocal a w r.2 = (Normal false, r.2) ∧
  listenersOf w r.2 = removeLast (λ h, sameHandler h h0) (listenersOf w st) ∧
  (∀ w', w' ≠ w → listenersOf w' r.2 = listenersOf w' st) ∧
  (∀ a' w', (a', w') ≠ (a, w) →
     localShortcutMap r.2 !! localKey a' w' = localShortcutMap st !! localKey a' w') ∧
  allShortcutMap r.2 = allShortcutMap st ∧
  globalShortcutMap r.2 = globalShortcutMap st ∧
  globalShortcuts r.2 = globalShortcuts st ∧
  windowCreatedListeners r.2 = windowCreatedListeners st.
Proof.
  intros Hk r. unfold r. rewrite (unregister_present _ _ _ _ _ Hk).
  cbn [fst snd]. rewrite isRegisteredLocal_run. unfold listenersOf. run.
  rewrite lookup_delete_eq. cbn [truthy].
  do 2 (split; [done|]).
  split; [apply (listeners_removeLast w (λ h, sameHandler h h0))|]. split.
  - intros w' Hne. rewrite filter_removeLast_disjoint; [done|].
    intros [w1 h1]. cbn [fst snd].
    intros [Hw _]%andb_true_iff. apply bool_decide_eq_true in Hw. congruence.
  - split; [|done]. intros a' w' Hne. apply lookup_delete_ne.
    intros [<- <-]%localKey_inj. done.
Qed.


End RegistryFacts.

(** ** The model at concrete inputs *)

Section AtConcreteInputs.

Import Electron.

Local Abbreviation reg := (register normalizedModifierToInputProperty).
Local Abbreviation regOnAll := (registerOnAll normalizedModifierToInputProperty).
Local Abbreviation newWindow := (createWindow normalizedModifierToInputProperty).
Local Abbreviation emit := (emitBeforeInputEvent inputProperties).
Local Abbreviation empty := (@initialState InputProperty).

Example split_ctrl_shift_a :
  split "Ctrl+Shift+A" = Normal (["Ctrl"; "Shift"], "A").
Proof. vm_compute. reflexivity. Qed.

Example normalize_CmdOrCtrl_Shift_P :
  normalize "CommandOrControl+Shift+P" = Normal ([CommandOrControl; Shift], "p").
Proof. vm_compute. reflexivity. Qed.

Example normalize_duplicates_collapse :
  normalize "Ctrl+Control+a" = Normal ([Control], "a").
Proof. vm_compute. reflexivity. Qed.

Example normalize_no_key : normalize "Ctrl+Shift" = Throw MalformedAccelerator.
Proof. vm_compute. reflexivity. Qed.

Example normalize_two_keys : normalize "A+B" = Throw MalformedAccelerator.
Proof. vm_compute. reflexivity. Qed.

Example normalize_empty : normalize "" = Throw MalformedAccelerator.
Proof. vm_compute. reflexivity. Qed.

Example localKey_example : localKey "Ctrl+A" 12 = "Ctrl+A-12".
Proof. vm_compute. reflexivity. Qed.

(** Section 8 of the spec: Control+A with control and shift held matches
    when not strict and does not when strict. *)
Example control_a_with_shift_held :
  calledBy (reg "Control+A" 7 1%N None ;; emit 1%N (keyDownOf "a" [control; shift])) empty = [7] ∧
  calledBy (reg "Control+A" 7 1%N (Some {| opt_strict := Some true |}) ;;
            emit 1%N (keyDownOf "a" [control; shift])) empty = [].
Proof. vm_compute. done. Qed.

(** A window created after [registerOnAll] has the shortcut. *)
Example registerOnAll_reaches_new_window :
  (isRegisteredLocal "Ctrl+A" 5%N
     ((regOnAll "Ctrl+A" 7 None ;; newWindow 5%N) empty).2).1 = Normal true.
Proof. vm_compute. reflexivity. Qed.


(** C7 fails on the code. [registerOnAll] has no counterpart of the
    [unregisterPreviousIfNeeded] of [register] and [registerGlobal]: called
    again for the same accelerator, it overwrites the stored creation handler
    without unsubscribing it, so both creation handlers stay subscribed,
    whatever the state and the accelerator. [unregisterOnAll] can then only
    remove the stored one: in the scenario below, a window created after
    [unregisterOnAll] still receives the first callback. *)
Theorem registerOnAll_again_leaks_creation_handler (st : State) a f1 f2 o1 o2 :
  let st1 := (regOnAll a f1 o1 st).2 in
  let st2 := (regOnAll a f2 o2 st1).2 in
  windowCreatedListeners st2 =
    windowCreatedListeners st ++
      [{| ch_ref := nextRef st; ch_accelerator := a; ch_f := f1; ch_options := o1 |};
       {| ch_ref := nextRef st1; ch_accelerator := a; ch_f := f2; ch_options := o2 |}] ∧
  let r2 := (regOnAll "Ctrl+A" 1 None ;; regOnAll "Ctrl+A" 2 None) empty in
  let r3 := unregisterOnAll "Ctrl+A" r2.2 in
  let r4 := newWindow 5%N r3.2 in
  r2.1 = Normal () ∧
  ch_f <$> windowCreatedListeners r2.2 = [1; 2] ∧
  ch_f <$> allShortcutMap r2.2 !! "Ctrl+A" = Some 2 ∧
  r3.1 = Normal () ∧
  ch_f <$> windowCreatedListeners r3.2 = [1] ∧
  (isRegisteredOnAll "Ctrl+A" r3.2).1 = Normal false ∧
  r4.1 = Normal () ∧
  (isRegisteredLocal "Ctrl+A" 5%N r4.2).1 = Normal true ∧
  calledBy (emit 5%N (keyDownOf "a" [control])) r4.2 = [1].
Proof.
  split.
  - by rewrite !registerOnAll_subscribes, <- app_assoc.
  - vm_compute. done.
Qed.

(** C6 fails as stated: "Ctrl+Shift+A" and "shift+ctrl+a" normalize to the
    same modifiers and key, yet an entry registered under the first is not
    found under the second, and [unregister] with the second leaves it. *)
Lemma case_or_order_changes_the_key :
  normalize "Ctrl+Shift+A" = Normal ([Control; Shift], "a") ∧
  normalize "shift+ctrl+a" = Normal ([Shift; Control], "a") ∧
  let st1 := (reg "Ctrl+Shift+A" 7 1%N None empty).2 in
  (isRegisteredLocal "Ctrl+Shift+A" 1%N st1).1 = Normal true ∧
  (isRegisteredLocal "shift+ctrl+a" 1%N st1).1 = Normal false ∧
  (isRegisteredLocal "Ctrl+Shift+A" 1%N (unregister "shift+ctrl+a" 1%N st1).2).1
    = Normal true.
Proof. vm_compute. done. Qed.

(** C8 fails as stated: with the malformed accelerator "A+B",
    [registerGlobal] stores its entry, and [registerOnAll] stores its entry
    and then throws only if a window is open. *)
Lemma malformed_accelerator_still_stored :
  normalize "A+B" = Throw MalformedAccelerator ∧
  globalShortcutMap (registerGlobal "A+B" 7 empty).2 !! "A+B" = Some 7 ∧
  (regOnAll "A+B" 7 None empty).1 = Normal () ∧
  (isRegisteredOnAll "A+B" (regOnAll "A+B" 7 None empty).2).1 = Normal true ∧
  let open := (newWindow 1%N empty).2 in
  (regOnAll "A+B" 7 None open).1 = Throw MalformedAccelerator ∧
  (isRegisteredOnAll "A+B" open).1 = Normal false ∧
  (isRegisteredOnAll "A+B" (regOnAll "A+B" 7 None open).2).1 = Normal true.
Proof. vm_compute. done. Qed.

(** C10 fails as stated: no two distinct pairs of an accelerator and a
    window id share a key. *)
Lemma local_key_never_collides :
  ¬ ∃ a1 w1 a2 w2, (a1, w1) ≠ (a2, w2) ∧ localKey a1 w1 = localKey a2 w2.
Proof. intros (a1 & w1 & a2 & w2 & Hne & [-> ->]%localKey_inj). done. Qed.

(** *** The theorems at concrete inputs *)

Lemma register_twice_single_handler_witness :
  normalize "Ctrl+A" = Normal ([Control], "a") ∧
  calledBy (emit 1%N (keyDownOf "A" [control; alt]))
    ((reg "Ctrl+A" 1 1%N None ;; reg "Ctrl+A" 2 1%N None) empty).2 = [2].
Proof.
  assert (normalize "Ctrl+A" = Normal ([Control], "a")) as Ha
    by (vm_compute; reflexivity).
  split; [exact Ha|].
  destruct (register_twice_single_handler inputProperties
              normalizedModifierToInputProperty empty "Ctrl+A" 1 2 1%N None None
              [Control] "a" Ha) as (_ & _ & _ & Hcalls).
  apply (Hcalls (keyDownOf "A" [control; alt])); reflexivity.
Defined.

Lemma handler_modifier_semantics_witness :
  let i := keyDownOf "A" [control; shift] in
  let h strict := {| h_ref := 0;
                     h_inputModifiers := normalizedModifierToInputProperty <$> [Control];
                     h_normalizedNonModifier := "a";
                     h_strict := strict;
                     h_f := 7 |} in
  input_type i = keyDown ∧
  toLowerCase (input_key i) = toLowerCase "a" ∧
  calledBy (handler inputProperties (h false) i) empty = [7] ∧
  calledBy (handler inputProperties (h true) i) empty = [].
Proof.
  intros i h.
  assert (input_type i = keyDown) as Hdown by reflexivity.
  assert (toLowerCase (input_key i) = toLowerCase "a") as Hkey by reflexivity.
  split; [exact Hdown|]. split; [exact Hkey|]. split.
  - destruct (handler_modifier_semantics inputProperties
                normalizedModifierToInputProperty empty 0 [Control] "a" false 7 i
                Hdown Hkey) as [Hloose _].
    destruct (Hloose eq_refl) as [Hiff _]. apply Hiff.
    intros m ->%list_elem_of_singleton. reflexivity.
  - destruct (handler_modifier_semantics inputProperties
                normalizedModifierToInputProperty empty 0 [Control] "a" true 7 i
                Hdown Hkey) as [_ Hstrict].
    destruct (Hstrict eq_refl) as (_ & Hiff & _). apply Hiff.
    intros [_ Hno]. specialize (Hno shift).
    assert (input_flag i shift = false) as Hshift.
    { apply Hno.
      - apply elem_of_cons. by left.
      - simpl. by intros ?%list_elem_of_singleton. }
    discriminate Hshift.
Defined.

Lemma key_up_never_calls_witness :
  let st := (reg "Ctrl+A" 7 1%N None empty).2 in
  let i := keyUpOf "a" [control] in
  input_type i = keyUp ∧
  emit 1%N i st = (Normal (), st).
Proof.
  intros st i. split; [reflexivity|].
  apply (key_up_never_calls inputProperties st
           {| h_ref := 0; h_inputModifiers := [control];
              h_normalizedNonModifier := "a"; h_strict := false; h_f := 7 |} 1%N i).
  reflexivity.
Defined.

Lemma register_then_unregister_witness :
  normalize "Ctrl+Shift+A" = Normal ([Control; Shift], "a") ∧
  let r1 := reg "Ctrl+Shift+A" 7 1%N None empty in
  (isRegisteredLocal "Ctrl+Shift+A" 1%N r1.2).1 = Normal true ∧
  (isRegisteredLocal "Ctrl+Shift+A" 1%N (unregister "Ctrl+Shift+A" 1%N r1.2).2).1
    = Normal false.
Proof.
  assert (normalize "Ctrl+Shift+A" = Normal ([Control; Shift], "a")) as Ha
    by (vm_compute; reflexivity).
  split; [exact Ha|].
  destruct (register_then_unregister normalizedModifierToInputProperty empty
              "Ctrl+Shift+A" 7 1%N None [Control; Shift] "a" Ha)
    as (_ & Hin & _ & Hout).
  cbv zeta. by rewrite Hin, Hout.
Defined.

Lemma unregister_without_entry_throws_witness :
  localShortcutMap empty !! localKey "Ctrl+A" 1%N = None ∧
  unregister "Ctrl+A" 1%N empty = (Throw TypeError, empty).
Proof.
  assert (localShortcutMap empty !! localKey "Ctrl+A" 1%N = None) as Hk
    by (vm_compute; reflexivity).
  split; [exact Hk|]. exact (unregister_without_entry_throws empty "Ctrl+A" 1%N Hk).
Defined.

Lemma registry_keys_are_raw_text_witness :
  "Ctrl+Shift+A" ≠ "shift+ctrl+a" ∧
  normalize "Ctrl+Shift+A" = Normal ([Control; Shift], "a") ∧
  (isRegisteredLocal "shift+ctrl+a" 1%N (reg "Ctrl+Shift+A" 7 1%N None empty).2).1
    = (isRegisteredLocal "shift+ctrl+a" 1%N empty).1.
Proof.
  assert ("Ctrl+Shift+A" ≠ "shift+ctrl+a") as Hne by discriminate.
  assert (normalize "Ctrl+Shift+A" = Normal ([Control; Shift], "a")) as Ha
    by (vm_compute; reflexivity).
  split; [exact Hne|]. split; [exact Ha|].
  exact (proj1 (proj2 (registry_keys_are_raw_text normalizedModifierToInputProperty
                         empty "Ctrl+Shift+A" "shift+ctrl+a" 7 1%N None
                         [Control; Shift] "a" Hne Ha))).
Defined.

Lemma local_key_injective_witness :
  ("A-1", 2%N) ≠ ("A", 12%N) ∧ localKey "A-1" 2 ≠ localKey "A" 12.
Proof.
  assert (("A-1", 2%N) ≠ ("A", 12%N)) as Hne by discriminate.
  split; [exact Hne|].
  exact (proj1 (local_key_injective "A-1" 2%N "A" 12%N
                  {| h_ref := 0; h_inputModifiers := [control];
                     h_normalizedNonModifier := "a"; h_strict := false; h_f := 7 |}
                  empty Hne)).
Defined.

Lemma register_malformed_no_mutation_witness :
  normalize "Ctrl+Shift" = Throw MalformedAccelerator ∧
  reg "Ctrl+Shift" 7 1%N None empty = (Throw MalformedAccelerator, empty).
Proof.
  assert (normalize "Ctrl+Shift" = Throw MalformedAccelerator) as Ha
    by (vm_compute; reflexivity).
  split; [exact Ha|].
  exact (register_malformed_no_mutation normalizedModifierToInputProperty empty
           "Ctrl+Shift" 7 1%N None MalformedAccelerator Ha).
Defined.


(** *** The further properties at concrete inputs *)

Local Abbreviation twoWindows := ((newWindow 1%N ;; newWindow 2%N) empty).2.
Local Abbreviation twoWindowsRegistered :=
  ((newWindow 1%N ;; newWindow 2%N ;; regOnAll "Ctrl+A" 7 None) empty).2.

Lemma register_unregister_round_trip_witness :
  normalize "Ctrl+A" = Normal ([Control], "a") ∧
  localShortcutMap empty !! localKey "Ctrl+A" 1%N = None ∧
  (reg "Ctrl+A" 7 1%N None ;; unregister "Ctrl+A" 1%N) empty =
    (Normal (), set_nextRef S empty).
Proof.
  assert (normalize "Ctrl+A" = Normal ([Control], "a")) as Ha
    by (vm_compute; reflexivity).
  assert (localShortcutMap empty !! localKey "Ctrl+A" 1%N = None) as Hk
    by (vm_compute; reflexivity).
  split; [exact Ha|]. split; [exact Hk|].
  exact (proj2 (register_unregister_round_trip normalizedModifierToInputProperty
                  empty "Ctrl+A" 7 1%N None [Control] "a" Ha) Hk).
Defined.

Lemma register_many_single_handler_witness :
  normalize "Ctrl+A" = Normal ([Control], "a") ∧
  snd <$> inputListeners
            (forEach ([1; 2] ++ [3]) (λ g, reg "Ctrl+A" g 1%N None) empty).2
    = [{| h_ref := 2; h_inputModifiers := [control];
          h_normalizedNonModifier := "a"; h_strict := false; h_f := 3 |}].
Proof.
  assert (normalize "Ctrl+A" = Normal ([Control], "a")) as Ha
    by (vm_compute; reflexivity).
  split; [exact Ha|].
  destruct (register_many_single_handler inputProperties
              normalizedModifierToInputProperty empty "Ctrl+A" 1%N None
              [Control] "a" [1; 2] 3 Ha) as (_ & _ & HL & _).
  rewrite HL. reflexivity.
Defined.

Lemma handler_depends_on_normal_form_witness :
  let h1 := {| h_ref := 0; h_inputModifiers := [control; shift];
               h_normalizedNonModifier := "a"; h_strict := true; h_f := 7 |} in
  let h2 := {| h_ref := 1; h_inputModifiers := [shift; control; shift];
               h_normalizedNonModifier := "A"; h_strict := true; h_f := 7 |} in
  let i1 := keyDownOf "a" [control; shift] in
  let i2 := keyDownOf "A" [shift; control] in
  (∀ p, p ∈ h_inputModifiers h1 ↔ p ∈ h_inputModifiers h2) ∧
  calledBy (handler inputProperties h1 i1) empty =
    calledBy (handler inputProperties h2 i2) empty.
Proof.
  intros h1 h2 i1 i2.
  assert (∀ p, p ∈ h_inputModifiers h1 ↔ p ∈ h_inputModifiers h2) as Hims.
  { intros p. cbn [h1 h2 h_inputModifiers]. rewrite !elem_of_cons, !elem_of_nil. tauto. }
  split; [exact Hims|].
  apply (handler_depends_on_normal_form inputProperties empty h1 h2 i1 i2 Hims);
    try reflexivity.
  intros p. by destruct p.
Defined.

Lemma global_store_matches_bindings_witness :
  globalShortcutMap empty = globalShortcuts empty ∧
  calledBy (pressGlobalShortcut "Ctrl+G") (registerGlobal "Ctrl+G" 7 empty).2 = [7].
Proof.
  assert (globalShortcutMap empty = globalShortcuts empty) as Hsync by reflexivity.
  split; [exact Hsync|].
  exact (proj2 (proj2 (global_store_matches_bindings empty "Ctrl+G" 7 Hsync))).
Defined.


Lemma registerOnAll_registers_open_windows_witness :
  normalize "Ctrl+A" = Normal ([Control], "a") ∧
  2%N ∈ allWindows twoWindows ∧
  isRegisteredLocal "Ctrl+A" 2%N (regOnAll "Ctrl+A" 7 None twoWindows).2 =
    (Normal true, (regOnAll "Ctrl+A" 7 None twoWindows).2).
Proof.
  assert (normalize "Ctrl+A" = Normal ([Control], "a")) as Ha
    by (vm_compute; reflexivity).
  assert (2%N ∈ allWindows twoWindows) as Hw.
  { change (allWindows twoWindows) with [1%N; 2%N].
    apply elem_of_cons. right. apply elem_of_cons. by left. }
  split; [exact Ha|]. split; [exact Hw|].
  destruct (registerOnAll_registers_open_windows normalizedModifierToInputProperty
              twoWindows "Ctrl+A" 7 None [Control] "a" Ha) as (_ & _ & _ & Hall).
  exact (proj1 (Hall 2%N Hw)).
Defined.

Lemma window_created_after_registerOnAll_witness :
  normalize "Ctrl+A" = Normal ([Control], "a") ∧
  Forall (λ ch, ∃ n, normalize (ch_accelerator ch) = Normal n)
    (windowCreatedListeners empty) ∧
  (isRegisteredLocal "Ctrl+A" 5%N
     (newWindow 5%N (regOnAll "Ctrl+A" 7 None empty).2).2).1 = Normal true.
Proof.
  assert (normalize "Ctrl+A" = Normal ([Control], "a")) as Ha
    by (vm_compute; reflexivity).
  assert (Forall (λ ch : @CreationHandler, ∃ n, normalize (ch_accelerator ch) = Normal n)
            (windowCreatedListeners empty)) as HL by apply Forall_nil_2.
  split; [exact Ha|]. split; [exact HL|].
  destruct (window_created_after_registerOnAll normalizedModifierToInputProperty
              empty "Ctrl+A" 7 None 5%N [Control] "a" Ha HL) as (_ & _ & Hreg & _).
  by rewrite Hreg.
Defined.



Lemma registerOnAll_unregisterOnAll_round_trip_witness :
  normalize "Ctrl+A" = Normal ([Control], "a") ∧
  NoDup (allWindows twoWindows) ∧
  (∀ w, w ∈ allWindows twoWindows →
     localShortcutMap twoWindows !! localKey "Ctrl+A" w = None) ∧
  allShortcutMap twoWindows !! "Ctrl+A" = None ∧
  inputListeners ((regOnAll "Ctrl+A" 7 None ;; unregisterOnAll "Ctrl+A") twoWindows).2
    = inputListeners twoWindows.
Proof.
  assert (normalize "Ctrl+A" = Normal ([Control], "a")) as Ha
    by (vm_compute; reflexivity).
  assert (allWindows twoWindows = [1%N; 2%N]) as Hws by (vm_compute; reflexivity).
  assert (NoDup (allWindows twoWindows)) as Hnd.
  { rewrite Hws. apply NoDup_cons. split.
    - by intros ?%list_elem_of_singleton.
    - apply NoDup_singleton. }
  assert (∀ w, w ∈ allWindows twoWindows →
            localShortcutMap twoWindows !! localKey "Ctrl+A" w = None) as Hfresh.
  { intros w. rewrite Hws.
    intros [->|[->|[]%elem_of_nil]%elem_of_cons]%elem_of_cons;
      vm_compute; reflexivity. }
  assert (allShortcutMap twoWindows !! "Ctrl+A" = None) as Hall
    by (vm_compute; reflexivity).
  split; [exact Ha|]. split; [exact Hnd|]. split; [exact Hfresh|].
  split; [exact Hall|].
  exact (proj1 (proj2 (proj2 (proj2
           (registerOnAll_unregisterOnAll_round_trip
              normalizedModifierToInputProperty twoWindows "Ctrl+A" 7 None
              [Control] "a" Ha Hnd Hfresh Hall))))).
Defined.

Lemma no_propagation_after_unregisterOnAll_witness :
  normalize "Ctrl+A" = Normal ([Control], "a") ∧
  NoDup (allWindows twoWindows) ∧
  (∀ w, w ∈ allWindows twoWindows →
     localShortcutMap twoWindows !! localKey "Ctrl+A" w = None) ∧
  allShortcutMap twoWindows !! "Ctrl+A" = None ∧
  Forall (λ ch, ch_accelerator ch ≠ "Ctrl+A") (windowCreatedListeners twoWindows) ∧
  localShortcutMap twoWindows !! localKey "Ctrl+A" 5%N = None ∧
  (isRegisteredLocal "Ctrl+A" 5%N
     (newWindow 5%N
        ((regOnAll "Ctrl+A" 7 None ;; unregisterOnAll "Ctrl+A") twoWindows).2).2).1
    = Normal false.
Proof.
  assert (normalize "Ctrl+A" = Normal ([Control], "a")) as Ha
    by (vm_compute; reflexivity).
  assert (allWindows twoWindows = [1%N; 2%N]) as Hws by (vm_compute; reflexivity).
  assert (NoDup (allWindows twoWindows)) as Hnd.
  { rewrite Hws. apply NoDup_cons. split.
    - by intros ?%list_elem_of_singleton.
    - apply NoDup_singleton. }
  assert (∀ w, w ∈ allWindows twoWindows →
            localShortcutMap twoWindows !! localKey "Ctrl+A" w = None) as Hfresh.
  { intros w. rewrite Hws.
    intros [->|[->|[]%elem_of_nil]%elem_of_cons]%elem_of_cons;
      vm_compute; reflexivity. }
  assert (allShortcutMap twoWindows !! "Ctrl+A" = None) as Hall
    by (vm_compute; reflexivity).
  assert (Forall (λ ch : @CreationHandler, ch_accelerator ch ≠ "Ctrl+A")
            (windowCreatedListeners twoWindows)) as Hothers.
  { change (windowCreatedListeners twoWindows) with (@nil (@CreationHandler)).
    apply Forall_nil_2. }
  assert (localShortcutMap twoWindows !! localKey "Ctrl+A" 5%N = None) as Hk
    by (vm_compute; reflexivity).
  split; [exact Ha|]. split; [exact Hnd|]. split; [exact Hfresh|].
  split; [exact Hall|]. split; [exact Hothers|]. split; [exact Hk|].
  by rewrite (no_propagation_after_unregisterOnAll normalizedModifierToInputProperty
                twoWindows "Ctrl+A" 7 None [Control] "a" 5%N
                Ha Hnd Hfresh Hall Hothers Hk).
Defined.

Lemma unregister_effect_witness :
  let st := (reg "Ctrl+A" 7 1%N None empty).2 in
  let h0 := {| h_ref := 0; h_inputModifiers := [control];
               h_normalizedNonModifier := "a"; h_strict := false; h_f := 7 |} in
  localShortcutMap st !! localKey "Ctrl+A" 1%N = Some (h0, 1%N) ∧
  listenersOf 1%N (unregister "Ctrl+A" 1%N st).2 = [].
Proof.
  intros st h0.
  assert (localShortcutMap st !! localKey "Ctrl+A" 1%N = Some (h0, 1%N)) as Hk
    by (vm_compute; reflexivity).
  split; [exact Hk|].
  destruct (unregister_effect st "Ctrl+A" 1%N h0 1%N Hk) as (_ & _ & HL & _).
  rewrite HL. reflexivity.
Defined.

End AtConcreteInputs.
